(** * AbstractScene: parser registry and scene container

    A shallow embedding of [packages/dev/core/src/abstractScene.ts].

    The file has two parts.  The static part of [AbstractScene] is a pair of
    name-keyed parser registries, each one a plain JavaScript object created
    by the literal [{}]; the instance part is a container of sixteen arrays
    and one nullable texture reference, with the derived query [getNodes].

    The registries are modelled as ordinary JavaScript objects: own
    properties in property-enumeration order, and a prototype that is
    [%Object.prototype%] when the object is created.  The container is
    modelled over a heap of array objects, so that freshness and aliasing of
    the arrays can be stated.

    The language runtime is modelled within these bounds.  The realm is as
    the engine creates it: [%Object.prototype%] and [%Function.prototype%]
    have their built-in properties only, and these are writable.  A
    function object is an ordinary object, not a Proxy, and the properties
    on its prototype chain are data properties, the built-in accessors
    apart.  Outside these bounds enumerating or reading a property can run
    foreign code, which the model does not describe; properties that depend
    on the bounds say so. *)

From Stdlib Require Import String Ascii NArith List Bool Lia.
From stdpp Require Import base decidable option list strings.

Local Open Scope string_scope.
Local Open Scope list_scope.

(** ** Ordinary objects with string keys *)

Module JS.

(** *** Completions *)

(** A thrown value: either a [TypeError] raised by the language itself, or a
    value thrown by foreign code. *)
Inductive Exn : Type :=
| TypeError (msg : string)
| Thrown (payload : string).

Inductive Completion (A : Type) : Type :=
| Normal (a : A)
| Abrupt (e : Exn).
Arguments Normal {A} a.
Arguments Abrupt {A} e.

(** *** Property keys

    [OrdinaryOwnPropertyKeys] lists the keys that are array indices first,
    in ascending numeric order, and then the other string keys in the order
    in which the properties were created.  An array index is a canonical
    numeric string whose value is below [2^32 - 1]. *)

Definition is_digit (c : ascii) : bool :=
  let n := N_of_ascii c in ((48 <=? n) && (n <=? 57))%N.

Fixpoint digits_value (s : string) (acc : N) : option N :=
  match s with
  | EmptyString => Some acc
  | String c s' =>
      if is_digit c then digits_value s' (10 * acc + (N_of_ascii c - 48))%N
      else None
  end.

Definition array_index (k : string) : option N :=
  match k with
  | EmptyString => None
  | String "0"%char EmptyString => Some 0%N
  | String "0"%char _ => None
  | _ =>
      match digits_value k 0 with
      | Some n => if (n <? 2 ^ 32 - 1)%N then Some n else None
      | None => None
      end
  end.

(** *** Own properties

    The own properties of an object all come from assignments
    [obj[key] = value]: they are writable, enumerable data properties.  They
    are kept as a list in enumeration order. *)

Section Own.
Context {V : Type}.

Fixpoint own_lookup (k : string) (own : list (string * V)) : option V :=
  match own with
  | [] => None
  | (k', v) :: rest => if decide (k = k') then Some v else own_lookup k rest
  end.

Definition own_keys (own : list (string * V)) : list string := map fst own.

(** Overwriting an existing property keeps its place in the order. *)
Fixpoint own_replace (k : string) (v : V) (own : list (string * V))
  : list (string * V) :=
  match own with
  | [] => []
  | (k', v') :: rest =>
      if decide (k = k') then (k', v) :: rest
      else (k', v') :: own_replace k v rest
  end.

(** A new array-index key goes before the first key that is not an array
    index or is a larger one. *)
Fixpoint insert_index (i : N) (k : string) (v : V) (own : list (string * V))
  : list (string * V) :=
  match own with
  | [] => [(k, v)]
  | (k', v') :: rest =>
      match array_index k' with
      | Some j =>
          if (j <? i)%N then (k', v') :: insert_index i k v rest
          else (k, v) :: own
      | None => (k, v) :: own
      end
  end.

(** A new key that is not an array index goes last. *)
Definition own_add (k : string) (v : V) (own : list (string * V))
  : list (string * V) :=
  match array_index k with
  | Some i => insert_index i k v own
  | None => own ++ [(k, v)]
  end.
End Own.

(** *** Values and the prototype chain *)

(** A value that is not a registered function: a built-in object or
    function (named by the path that reaches it), a number or a string. *)
Inductive Foreign : Type :=
| FObject (path : string)
| FNumber (n : N)
| FString (s : string).

(** What a key resolves to on a prototype chain.  Accessors with a getter
    or a setter of foreign code are not among the cases. *)
Inductive Slot : Type :=
| Absent                                  (* no property on the chain *)
| Data (v : Foreign) (writable : bool)    (* a data property *)
| ProtoAccessor                           (* Object.prototype.__proto__ *)
| Poison.                                 (* get and set are %ThrowTypeError% *)

(** A function object: an ordinary object, not a Proxy.  [fn_call] is what
    calling it does.  Its properties belong to foreign code, so they are
    kept abstract: [fn_slot] resolves a key on the function object and its
    prototype chain, [fn_enumerable] are the enumerable string keys of that
    chain. *)
Record FunctionObject (Call : Type) : Type := {
  fn_call : Call;
  fn_slot : string -> Slot;
  fn_enumerable : list string
}.
Arguments fn_call {Call} f.
Arguments fn_slot {Call} f k.
Arguments fn_enumerable {Call} f.

Inductive Value (Call : Type) : Type :=
| VUndefined
| VNull
| VFunction (f : FunctionObject Call)
| VForeign (x : Foreign).
Arguments VUndefined {Call}.
Arguments VNull {Call}.
Arguments VFunction {Call} f.
Arguments VForeign {Call} x.

(** ToBoolean. *)
Definition to_boolean {Call} (v : Value Call) : bool :=
  match v with
  | VUndefined | VNull => false
  | VFunction _ => true
  | VForeign (FObject _) => true
  | VForeign (FNumber n) => negb (n =? 0)%N
  | VForeign (FString s) => negb (String.eqb s "")
  end.

(** The string-keyed properties of [%Object.prototype%] as the engine
    creates it: eleven methods, all writable and none enumerable, and the
    accessor [__proto__]. *)
Definition object_prototype_methods : list string :=
  [ "constructor"; "hasOwnProperty"; "isPrototypeOf"; "propertyIsEnumerable";
    "toLocaleString"; "toString"; "valueOf";
    "__defineGetter__"; "__defineSetter__";
    "__lookupGetter__"; "__lookupSetter__" ].

Definition object_prototype_slot (k : string) : Slot :=
  if decide (k = "__proto__") then ProtoAccessor
  else if bool_decide (k ∈ object_prototype_methods)
       then Data (FObject ("Object.prototype." ++ k)) true
       else Absent.

(** The string-keyed properties of [%Function.prototype%] that are not
    shadowed by a function's own [length] and [name]. *)
Definition function_prototype_methods : list string :=
  [ "apply"; "bind"; "call"; "constructor"; "toString" ].

(** The chain of an arrow function of the given name and arity that foreign
    code has not touched: own read-only [length] and [name], then
    [%Function.prototype%], then [%Object.prototype%]. *)
Definition arrow_function_slot (name : string) (arity : N) (k : string) : Slot :=
  if decide (k = "length") then Data (FNumber arity) false
  else if decide (k = "name") then Data (FString name) false
  else if bool_decide (k ∈ ["arguments"; "caller"]) then Poison
  else if bool_decide (k ∈ function_prototype_methods)
       then Data (FObject ("Function.prototype." ++ k)) true
       else object_prototype_slot k.

Definition arrow_function {Call} (name : string) (arity : N) (call : Call)
  : FunctionObject Call :=
  {| fn_call := call;
     fn_slot := arrow_function_slot name arity;
     fn_enumerable := [] |}.

(** *** Objects *)

(** The [[Prototype]] slot of a registry object.  It is [%Object.prototype%]
    until an assignment to the key [__proto__] replaces it by the assigned
    function object. *)
Inductive Proto (Call : Type) : Type :=
| ObjectPrototype
| FunctionProto (f : FunctionObject Call).
Arguments ObjectPrototype {Call}.
Arguments FunctionProto {Call} f.

Record Obj (Call : Type) : Type := {
  own : list (string * FunctionObject Call);
  proto : Proto Call
}.
Arguments own {Call} o.
Arguments proto {Call} o.

Section Objects.
Context {Call : Type}.
Implicit Types (o : Obj Call) (k : string) (f : FunctionObject Call).

(** The object literal [{}]. *)
Definition empty_object : Obj Call :=
  {| own := []; proto := ObjectPrototype |}.

Definition proto_slot (p : Proto Call) k : Slot :=
  match p with
  | ObjectPrototype => object_prototype_slot k
  | FunctionProto f => fn_slot f k
  end.

Definition proto_value (p : Proto Call) : Value Call :=
  match p with
  | ObjectPrototype => VForeign (FObject "Object.prototype")
  | FunctionProto f => VFunction f
  end.

Definition proto_enumerable (p : Proto Call) : list string :=
  match p with
  | ObjectPrototype => []
  | FunctionProto f => fn_enumerable f
  end.

(** [o[k]]: the own property if there is one, else what the prototype
    chain gives. *)
Definition obj_get o k : Completion (Value Call) :=
  match own_lookup k (own o) with
  | Some f => Normal (VFunction f)
  | None =>
      match proto_slot (proto o) k with
      | Absent => Normal VUndefined
      | Data v _ => Normal (VForeign v)
      | ProtoAccessor => Normal (proto_value (proto o))
      | Poison => Abrupt (TypeError "restricted function property")
      end
  end.

(** [o[k] = f] in strict code.  An own property is overwritten.
    Otherwise the prototype chain decides: an inherited read-only property
    or a throwing accessor makes the assignment throw, the [__proto__]
    setter replaces the prototype by [f] (a function is an object), and in
    the other cases a new own property is created. *)
Definition obj_set o k f : Completion (Obj Call) :=
  match own_lookup k (own o) with
  | Some _ => Normal {| own := own_replace k f (own o); proto := proto o |}
  | None =>
      match proto_slot (proto o) k with
      | Absent | Data _ true =>
          Normal {| own := own_add k f (own o); proto := proto o |}
      | Data _ false => Abrupt (TypeError "assignment to read-only property")
      | ProtoAccessor => Normal {| own := own o; proto := FunctionProto f |}
      | Poison => Abrupt (TypeError "restricted function property")
      end
  end.

(** The invariant of an object's own properties: no key occurs twice. *)
Definition distinct_keys o : Prop := NoDup (own_keys (own o)).

(** [Object.prototype.hasOwnProperty.call(o, k)]. *)
Definition has_own_property o k : bool :=
  match own_lookup k (own o) with
  | Some _ => true
  | None => false
  end.

(** The keys a [for (k in o)] loop visits: the own keys, then the
    enumerable keys of the prototype chain that no own key shadows.  The
    objects of the chain are ordinary, so listing their keys runs no
    code. *)
Definition for_in_keys o : list string :=
  own_keys (own o) ++
  filter (fun k => k ∉ own_keys (own o)) (proto_enumerable (proto o)).
End Objects.

End JS.

(** ** The static side of [AbstractScene]: the two parser registries *)

Module AbstractScene.
Import JS.

Section Statics.
(** [Any] is the type of the parsed JSON data; the scene and the asset
    container are handles that are passed on and never inspected here.
    [World] is the state that foreign code works on: the scene, the
    container and whatever else a parser reads or writes.  The registries
    are not part of it: what a [for-in] loop does with keys added while it
    runs is not fixed by the language, so a parser that registers parsers
    during [Parse] is outside this model. *)
Context {Any Scene AssetContainer : Type}.

(** [BabylonFileParser = (parsedData, scene, container, rootUrl) => void] *)
Definition BabylonFileParserCall (World : Type) : Type :=
  Any -> Scene -> AssetContainer -> string -> World -> Completion unit * World.
Definition BabylonFileParser (World : Type) : Type :=
  FunctionObject (BabylonFileParserCall World).

(** [IndividualBabylonFileParser = (parsedData, scene, rootUrl) => any] *)
Definition IndividualBabylonFileParserCall (World : Type) : Type :=
  Any -> Scene -> string -> World -> Completion Any * World.
Definition IndividualBabylonFileParser (World : Type) : Type :=
  FunctionObject (IndividualBabylonFileParserCall World).

(** The two private static fields. *)
Record Statics (World : Type) : Type := {
  _BabylonFileParsers : Obj (BabylonFileParserCall World);
  _IndividualBabylonFileParsers : Obj (IndividualBabylonFileParserCall World)
}.
Arguments _BabylonFileParsers {World} s.
Arguments _IndividualBabylonFileParsers {World} s.

Context {World : Type}.
Implicit Types (st : Statics World) (name : string).

(** Both fields are initialised with [{}]. *)
Definition initial : Statics World :=
  {| _BabylonFileParsers := empty_object;
     _IndividualBabylonFileParsers := empty_object |}.

Definition AddParser name (parser : BabylonFileParser World) st
  : Completion (Statics World) :=
  match obj_set (_BabylonFileParsers st) name parser with
  | Normal o =>
      Normal {| _BabylonFileParsers := o;
                _IndividualBabylonFileParsers := _IndividualBabylonFileParsers st |}
  | Abrupt e => Abrupt e
  end.

Definition GetParser name st : Completion (Value (BabylonFileParserCall World)) :=
  match obj_get (_BabylonFileParsers st) name with
  | Normal v =>
      if to_boolean v then obj_get (_BabylonFileParsers st) name
      else Normal VNull
  | Abrupt e => Abrupt e
  end.

Definition AddIndividualParser name (parser : IndividualBabylonFileParser World) st
  : Completion (Statics World) :=
  match obj_set (_IndividualBabylonFileParsers st) name parser with
  | Normal o =>
      Normal {| _BabylonFileParsers := _BabylonFileParsers st;
                _IndividualBabylonFileParsers := o |}
  | Abrupt e => Abrupt e
  end.

Definition GetIndividualParser name st
  : Completion (Value (IndividualBabylonFileParserCall World)) :=
  match obj_get (_IndividualBabylonFileParsers st) name with
  | Normal v =>
      if to_boolean v then obj_get (_IndividualBabylonFileParsers st) name
      else Normal VNull
  | Abrupt e => Abrupt e
  end.

(** [o[parserName](jsonData, scene, container, rootUrl)].  Calling
    [undefined] or [null] is a [TypeError]; the loop of [Parse] only gets
    here for own keys, which hold parsers. *)
Definition call_property (o : Obj (BabylonFileParserCall World)) (parserName : string)
    (jsonData : Any) (scene : Scene) (container : AssetContainer)
    (rootUrl : string) (w : World) : Completion unit * World :=
  match obj_get o parserName with
  | Normal (VFunction f) => fn_call f jsonData scene container rootUrl w
  | Normal _ => (Abrupt (TypeError "not a function"), w)
  | Abrupt e => (Abrupt e, w)
  end.

(** The body of the [for-in] loop, over the keys still to visit.  A parser
    that throws ends the loop: nothing catches the exception. *)
Fixpoint dispatch (o : Obj (BabylonFileParserCall World)) (keys : list string)
    (jsonData : Any) (scene : Scene) (container : AssetContainer)
    (rootUrl : string) (w : World) : Completion unit * World :=
  match keys with
  | [] => (Normal tt, w)
  | parserName :: rest =>
      if has_own_property o parserName then
        match call_property o parserName jsonData scene container rootUrl w with
        | (Normal _, w') => dispatch o rest jsonData scene container rootUrl w'
        | (Abrupt e, w') => (Abrupt e, w')
        end
      else dispatch o rest jsonData scene container rootUrl w
  end.

Definition Parse (jsonData : Any) (scene : Scene) (container : AssetContainer)
    (rootUrl : string) st (w : World) : Completion unit * World :=
  dispatch (_BabylonFileParsers st) (for_in_keys (_BabylonFileParsers st))
           jsonData scene container rootUrl w.
End Statics.

Arguments Statics : clear implicits.
Arguments _BabylonFileParsers {Any Scene AssetContainer World} s.
Arguments _IndividualBabylonFileParsers {Any Scene AssetContainer World} s.

(** *** Observing invocations

    To state which parsers [Parse] invokes, and with which arguments, each
    registered parser is wrapped in a spy that appends a record of the call
    to a log before it behaves as the parser it wraps.  The log is part of
    the world the wrapped parsers run in; [Parse] itself is unchanged. *)

Section Spy.
Context {Any Scene AssetContainer World : Type}.

Record Invocation : Type := {
  inv_key : string;
  inv_jsonData : Any;
  inv_scene : Scene;
  inv_container : AssetContainer;
  inv_rootUrl : string
}.

Definition spy (key : string)
    (p : @BabylonFileParser Any Scene AssetContainer World)
  : @BabylonFileParser Any Scene AssetContainer (World * list Invocation) :=
  {| fn_call := fun jsonData scene container rootUrl wl =>
       let log := snd wl ++ [ {| inv_key := key; inv_jsonData := jsonData;
                                 inv_scene := scene; inv_container := container;
                                 inv_rootUrl := rootUrl |} ] in
       match fn_call p jsonData scene container rootUrl (fst wl) with
       | (res, w') => (res, (w', log))
       end;
     fn_slot := fn_slot p;
     fn_enumerable := fn_enumerable p |}.

(** An individual parser run in the world with a log, which it ignores. *)
Definition with_log
    (p : @IndividualBabylonFileParser Any Scene World)
  : @IndividualBabylonFileParser Any Scene (World * list Invocation) :=
  {| fn_call := fun parsedData scene rootUrl wl =>
       match fn_call p parsedData scene rootUrl (fst wl) with
       | (res, w') => (res, (w', snd wl))
       end;
     fn_slot := fn_slot p;
     fn_enumerable := fn_enumerable p |}.

Definition map_object {C D : Type} (g : string -> FunctionObject C -> FunctionObject D)
    (o : Obj C) : Obj D :=
  {| own := map (fun kp => (fst kp, g (fst kp) (snd kp))) (own o);
     proto := match proto o with
              | ObjectPrototype => ObjectPrototype
              | FunctionProto f => FunctionProto (g "__proto__" f)
              end |}.

Definition spied (st : Statics Any Scene AssetContainer World)
  : Statics Any Scene AssetContainer (World * list Invocation) :=
  {| _BabylonFileParsers := map_object spy (_BabylonFileParsers st);
     _IndividualBabylonFileParsers :=
       map_object (fun _ => with_log) (_IndividualBabylonFileParsers st) |}.

Definition invocation_of (jsonData : Any) (scene : Scene)
    (container : AssetContainer) (rootUrl : string) (key : string)
  : Invocation :=
  {| inv_key := key; inv_jsonData := jsonData; inv_scene := scene;
     inv_container := container; inv_rootUrl := rootUrl |}.
End Spy.

Arguments Invocation : clear implicits.

(** ** The instance side of [AbstractScene]: the container *)

(** *** The heap

    Arrays are objects with identity: two fields may hold the same array,
    and writing through one reference is seen through the other.  The heap
    is a list of objects, an address is an index into it, and allocation
    appends.  Of a [Skeleton] only the field [bones] is modelled; every
    other entity (mesh, light, camera, bone, texture, ...) is [Opaque]. *)

Abbreviation loc := nat (only parsing).

Inductive HeapObject : Type :=
| Arr (elems : list loc)
| SkeletonObject (bones : loc)
| Opaque.

Abbreviation Heap := (list HeapObject) (only parsing).

(** Heap computations; [None] is a reference that the heap cannot resolve
    at the type the code expects, which typed callers never produce. *)
Definition M (A : Type) : Type := Heap -> option (A * Heap).

Definition ret {A} (a : A) : M A := fun h => Some (a, h).

Definition bind {A B} (m : M A) (k : A -> M B) : M B :=
  fun h => match m h with
           | Some (a, h') => k a h'
           | None => None
           end.

Declare Scope heap_scope.
Delimit Scope heap_scope with heap.
Notation "x <- m ;; k" := (bind m (fun x => k))
  (at level 100, m at next level, right associativity) : heap_scope.
Local Open Scope heap_scope.

Definition alloc (o : HeapObject) : M loc :=
  fun h => Some (length h, h ++ [o]).

(** [new Array<T>()] and the literal [[]]. *)
Definition new_Array : M loc := alloc (Arr []).

Definition read_array (a : loc) : M (list loc) :=
  fun h => match h !! a with
           | Some (Arr xs) => Some (xs, h)
           | _ => None
           end.

(** [skeleton.bones] *)
Definition get_bones (skeleton : loc) : M loc :=
  fun h => match h !! skeleton with
           | Some (SkeletonObject b) => Some (b, h)
           | _ => None
           end.

(** [a.concat(b)]: a new array with the elements of [a] followed by the
    elements of [b] when [b] is an array, and by [b] itself when it is any
    other object.  Neither [a] nor [b] is written. *)
Definition concat (a b : loc) : M loc :=
  xs <- read_array a ;;
  fun h => match h !! b with
           | Some (Arr ys) => alloc (Arr (xs ++ ys)) h
           | Some _ => alloc (Arr (xs ++ [b])) h
           | None => None
           end.

(** [xs.forEach(callback)] for a callback that updates one captured
    variable, here [nodes]. *)
Fixpoint forEach {A} (xs : list loc) (callback : A -> loc -> M A) (captured : A)
  : M A :=
  match xs with
  | [] => ret captured
  | x :: rest => captured' <- callback captured x ;; forEach rest callback captured'
  end.

(** Any write to the array at [a]: an index assignment, [push], [splice],
    a new [length]. *)
Definition write_array (a : loc) (xs : list loc) (h : Heap) : Heap :=
  <[a := Arr xs]> h.

(** *** The fields *)

(** The instance fields, in the order of their declaration. *)
Record Fields : Type := {
  rootNodes : loc;
  cameras : loc;
  lights : loc;
  meshes : loc;
  skeletons : loc;
  particleSystems : loc;
  animations : loc;
  animationGroups : loc;
  multiMaterials : loc;
  materials : loc;
  morphTargetManagers : loc;
  geometries : loc;
  transformNodes : loc;
  actionManagers : loc;
  textures : loc;
  _environmentTexture : option loc;
  postProcesses : loc
}.

(** The field initialisers, run in declaration order by the constructor. *)
Definition new_AbstractScene : M Fields :=
  rootNodes <- new_Array ;;
  cameras <- new_Array ;;
  lights <- new_Array ;;
  meshes <- new_Array ;;
  skeletons <- new_Array ;;
  particleSystems <- new_Array ;;
  animations <- new_Array ;;
  animationGroups <- new_Array ;;
  multiMaterials <- new_Array ;;
  materials <- new_Array ;;
  morphTargetManagers <- new_Array ;;
  geometries <- new_Array ;;
  transformNodes <- new_Array ;;
  actionManagers <- new_Array ;;
  textures <- new_Array ;;
  postProcesses <- new_Array ;;
  ret {| rootNodes := rootNodes; cameras := cameras; lights := lights;
         meshes := meshes; skeletons := skeletons;
         particleSystems := particleSystems; animations := animations;
         animationGroups := animationGroups; multiMaterials := multiMaterials;
         materials := materials; morphTargetManagers := morphTargetManagers;
         geometries := geometries; transformNodes := transformNodes;
         actionManagers := actionManagers; textures := textures;
         _environmentTexture := None; postProcesses := postProcesses |}.

(** [get environmentTexture()] *)
Definition get_environmentTexture (this : Fields) : option loc :=
  _environmentTexture this.

(** [set environmentTexture(value)] *)
Definition set_environmentTexture (value : option loc) (this : Fields) : Fields :=
  {| rootNodes := rootNodes this; cameras := cameras this; lights := lights this;
     meshes := meshes this; skeletons := skeletons this;
     particleSystems := particleSystems this; animations := animations this;
     animationGroups := animationGroups this; multiMaterials := multiMaterials this;
     materials := materials this; morphTargetManagers := morphTargetManagers this;
     geometries := geometries this; transformNodes := transformNodes this;
     actionManagers := actionManagers this; textures := textures this;
     _environmentTexture := value; postProcesses := postProcesses this |}.

Definition getNodes (this : Fields) : M loc :=
  nodes <- new_Array ;;
  nodes <- concat nodes (meshes this) ;;
  nodes <- concat nodes (lights this) ;;
  nodes <- concat nodes (cameras this) ;;
  nodes <- concat nodes (transformNodes this) ;;
  skeletons <- read_array (skeletons this) ;;
  forEach skeletons
    (fun nodes skeleton => bones <- get_bones skeleton ;; concat nodes bones)
    nodes.

(** *** Reading a container state *)

(** The array fields of a container: its categorized sequences. *)
Definition sequences (this : Fields) : list loc :=
  [ rootNodes this; cameras this; lights this; meshes this; skeletons this;
    particleSystems this; animations this; animationGroups this;
    multiMaterials this; materials this; morphTargetManagers this;
    geometries this; transformNodes this; actionManagers this; textures this;
    postProcesses this ].

(** The elements of the array at [a]. *)
Definition array_at (h : Heap) (a : loc) : option (list loc) :=
  match h !! a with
  | Some (Arr xs) => Some xs
  | _ => None
  end.

(** The elements of [skeleton.bones]. *)
Definition bones_at (h : Heap) (skeleton : loc) : option (list loc) :=
  match h !! skeleton with
  | Some (SkeletonObject b) => array_at h b
  | _ => None
  end.

(** A heap is well typed for a container when every sequence field holds
    an array and every element of [skeletons] is a skeleton whose [bones]
    is an array. *)
Definition well_typed (h : Heap) (this : Fields) : bool :=
  forallb (fun a => bool_decide (is_Some (array_at h a))) (sequences this) &&
  match array_at h (skeletons this) with
  | Some ss => forallb (fun s => bool_decide (is_Some (bones_at h s))) ss
  | None => false
  end.

End AbstractScene.

(** ** Sample parsers and registries *)

Module Sample.
Import JS AbstractScene.

(** The world of the samples is the list of the effects performed so
    far; the JSON data and the two handles are numbers. *)
Definition World : Type := list string.
Definition Parser : Type := @BabylonFileParser nat nat nat World.
Definition IndividualParser : Type := @IndividualBabylonFileParser nat nat World.

(** A parser that leaves its mark on the world and returns. *)
Definition returning (name : string) : Parser :=
  arrow_function name 4 (fun _ _ _ _ w => (Normal tt, w ++ [name])).

(** A parser that leaves its mark on the world and then throws. *)
Definition throwing (name : string) : Parser :=
  arrow_function name 4 (fun _ _ _ _ w => (Abrupt (Thrown name), w ++ [name])).

Definition individual (name : string) : IndividualParser :=
  arrow_function name 3 (fun parsedData _ _ w => (Normal parsedData, w ++ [name])).

Definition registry (entries : list (string * Parser))
  : Statics nat nat nat World :=
  {| _BabylonFileParsers := {| own := entries; proto := ObjectPrototype |};
     _IndividualBabylonFileParsers := empty_object |}.

Definition all_returning : Statics nat nat nat World :=
  registry [ ("geometry", returning "geometry"); ("mesh", returning "mesh");
             ("light", returning "light") ].

Definition second_throwing : Statics nat nat nat World :=
  registry [ ("geometry", returning "geometry"); ("mesh", throwing "mesh");
             ("light", returning "light") ].

(** A container as in the example of the specification: one mesh, one
    light, one camera, one transform node and one skeleton with two
    bones, and entities in categories that [getNodes] must leave out. *)
Definition scene_heap : Heap :=
  [ Opaque;              (* 0: the mesh m1 *)
    Opaque;              (* 1: the light l1 *)
    Opaque;              (* 2: the camera c1 *)
    Opaque;              (* 3: the transform node t1 *)
    Opaque;              (* 4: the bone b1 *)
    Opaque;              (* 5: the bone b2 *)
    Arr [4; 5];          (* 6: s1.bones *)
    SkeletonObject 6;    (* 7: the skeleton s1 *)
    Opaque;              (* 8: a material *)
    Opaque;              (* 9: a texture *)
    Arr [0; 3];          (* 10: rootNodes *)
    Arr [2];             (* 11: cameras *)
    Arr [1];             (* 12: lights *)
    Arr [0];             (* 13: meshes *)
    Arr [7];             (* 14: skeletons *)
    Arr [];              (* 15: particleSystems *)
    Arr [];              (* 16: animations *)
    Arr [];              (* 17: animationGroups *)
    Arr [];              (* 18: multiMaterials *)
    Arr [8];             (* 19: materials *)
    Arr [];              (* 20: morphTargetManagers *)
    Arr [];              (* 21: geometries *)
    Arr [3];             (* 22: transformNodes *)
    Arr [];              (* 23: actionManagers *)
    Arr [9];             (* 24: textures *)
    Arr [] ].            (* 25: postProcesses *)

Definition scene : Fields :=
  {| rootNodes := 10; cameras := 11; lights := 12; meshes := 13;
     skeletons := 14; particleSystems := 15; animations := 16;
     animationGroups := 17; multiMaterials := 18; materials := 19;
     morphTargetManagers := 20; geometries := 21; transformNodes := 22;
     actionManagers := 23; textures := 24; _environmentTexture := Some 9;
     postProcesses := 25 |}.
End Sample.

Import JS AbstractScene.
Local Open Scope heap_scope.

(** ** Invariants of the registries *)



(** The registry states that registrations reach from the initial state
    when no registration uses the name [__proto__]. *)
Inductive safely_reached {Any Scene AssetContainer World : Type}
  : Statics Any Scene AssetContainer World -> Prop :=
| reached_initial : safely_reached initial
| reached_AddParser st name parser st' :
    safely_reached st -> name <> "__proto__" ->
    AddParser name parser st = Normal st' -> safely_reached st'
| reached_AddIndividualParser st name parser st' :
    safely_reached st -> name <> "__proto__" ->
    AddIndividualParser name parser st = Normal st' -> safely_reached st'.

(** Calling the parsers of a list of entries one after the other, each
    in the world the one before it left, until one throws. *)
Fixpoint run_entries {Any Scene AssetContainer World : Type}
    (entries : list (string * @BabylonFileParser Any Scene AssetContainer World))
    (jsonData : Any) (scene : Scene) (container : AssetContainer)
    (rootUrl : string) (w : World) : Completion unit * World :=
  match entries with
  | [] => (Normal tt, w)
  | (_, p) :: rest =>
      match fn_call p jsonData scene container rootUrl w with
      | (Normal _, w') => run_entries rest jsonData scene container rootUrl w'
      | (Abrupt e, w') => (Abrupt e, w')
      end
  end.

(** The keys of the entries whose parsers are called in that run: all of
    them up to the first whose parser throws, that one included. *)
Fixpoint invoked_keys {Any Scene AssetContainer World : Type}
    (entries : list (string * @BabylonFileParser Any Scene AssetContainer World))
    (jsonData : Any) (scene : Scene) (container : AssetContainer)
    (rootUrl : string) (w : World) : list string :=
  match entries with
  | [] => []
  | (k, p) :: rest =>
      k :: match fn_call p jsonData scene container rootUrl w with
           | (Normal _, w') => invoked_keys rest jsonData scene container rootUrl w'
           | (Abrupt _, _) => []
           end
  end.

(** ** Registries that differ from each other *)

Module Mixed.
(** The whole-scene registry of [Sample.all_returning], with an individual
    registry that has one entry and a function as its prototype. *)
Definition st : Statics nat nat nat Sample.World :=
  {| _BabylonFileParsers := _BabylonFileParsers Sample.all_returning;
     _IndividualBabylonFileParsers :=
       {| own := [("camera", Sample.individual "camera")];
          proto := FunctionProto (Sample.individual "f") |} |}.

(** The same with the two registries exchanged in kind: the whole-scene
    registry has a function as its prototype, the individual one is as it
    was created but for one entry. *)
Definition st' : Statics nat nat nat Sample.World :=
  {| _BabylonFileParsers :=
       {| own := own (_BabylonFileParsers Sample.all_returning);
          proto := FunctionProto (Sample.returning "f") |};
     _IndividualBabylonFileParsers :=
       {| own := [("camera", Sample.individual "camera")];
          proto := ObjectPrototype |} |}.

(** A parser whose behaviour depends on the world it is called in: it
    throws unless the parser [geometry] has run before. *)
Definition needs_geometry : Sample.Parser :=
  arrow_function "mesh" 4
    (fun _ _ _ _ w =>
       if bool_decide ("geometry" ∈ w) then (Normal tt, w ++ ["mesh"])
       else (Abrupt (Thrown "no geometry"), w)).

(** A parser that throws once [mesh] has run. *)
Definition after_mesh_throws : Sample.Parser :=
  arrow_function "light" 4
    (fun _ _ _ _ w =>
       if bool_decide ("mesh" ∈ w) then (Abrupt (Thrown "light"), w ++ ["light"])
       else (Normal tt, w)).

Definition order_dependent : Statics nat nat nat Sample.World :=
  Sample.registry [ ("geometry", Sample.returning "geometry");
                    ("mesh", needs_geometry);
                    ("light", after_mesh_throws);
                    ("camera", Sample.returning "camera") ].
End Mixed.

(** ** A registry with a replaced prototype *)

Module Reparented.
(** A function object that foreign code has given two enumerable
    properties, one of them with the name of a registered parser. *)
Definition decorated : Sample.Parser :=
  {| fn_call := fun _ _ _ _ w => (Abrupt (Thrown "decorated"), w ++ ["decorated"]);
     fn_slot := fun k =>
       if bool_decide (k ∈ ["mesh"; "extra"]) then Data (FNumber 1) true
       else arrow_function_slot "decorated" 4 k;
     fn_enumerable := ["mesh"; "extra"] |}.

(** The registry of [Sample.all_returning] after
    [AddParser("__proto__", decorated)]. *)
Definition all_returning : Statics nat nat nat Sample.World :=
  {| _BabylonFileParsers :=
       {| own := own (_BabylonFileParsers Sample.all_returning);
          proto := FunctionProto decorated |};
     _IndividualBabylonFileParsers := empty_object |}.

(** A registry with no entry and that prototype. *)
Definition no_entries : Statics nat nat nat Sample.World :=
  {| _BabylonFileParsers := {| own := []; proto := FunctionProto decorated |};
     _IndividualBabylonFileParsers := empty_object |}.
End Reparented.

(** * Properties *)

(** ** Own properties *)

Section OwnFacts.
Context {V : Type}.
Implicit Types (k : string) (v : V) (own : list (string * V)).

Lemma own_lookup_None k own : own_lookup k own = None <-> k ∉ own_keys own.
Proof.
  induction own as [|[k' v'] rest IH]; simpl.
  - split; [intros _; apply not_elem_of_nil | done].
  - rewrite not_elem_of_cons. destruct (decide (k = k')) as [->|Hne].
    + split; [done | intros [? _]; done].
    + rewrite IH. tauto.
Qed.

Lemma own_lookup_Some_elem k v own : own_lookup k own = Some v -> (k, v) ∈ own.
Proof.
  induction own as [|[k' v'] rest IH]; simpl; [done|].
  destruct (decide (k = k')) as [->|Hne].
  - intros [= ->]. apply list_elem_of_here.
  - intros H. apply list_elem_of_further, IH, H.
Qed.

(** With distinct keys, every entry is the one its key finds. *)
Lemma own_lookup_elem k v own :
  NoDup (own_keys own) -> (k, v) ∈ own -> own_lookup k own = Some v.
Proof.
  induction own as [|[k' v'] rest IH]; simpl.
  - intros _ H. by apply elem_of_nil in H.
  - rewrite NoDup_cons. intros [Hnotin Hnd] Hin.
    apply elem_of_cons in Hin as [[= -> ->]|Hin].
    + by rewrite decide_True.
    + destruct (decide (k = k')) as [->|Hne]; [|by apply IH].
      exfalso. apply Hnotin. unfold own_keys.
      apply list_elem_of_fmap. by exists (k', v).
Qed.

Lemma own_keys_replace k v own : own_keys (own_replace k v own) = own_keys own.
Proof.
  induction own as [|[k' v'] rest IH]; simpl; [done|].
  destruct (decide (k = k')); simpl; [done | by rewrite IH].
Qed.

Lemma own_lookup_replace_eq k v own :
  is_Some (own_lookup k own) -> own_lookup k (own_replace k v own) = Some v.
Proof.
  induction own as [|[k' v'] rest IH]; simpl.
  - by intros [? ?].
  - destruct (decide (k = k')) as [->|Hne]; simpl.
    + by rewrite decide_True.
    + rewrite decide_False by done. apply IH.
Qed.

Lemma own_lookup_replace_ne k k' v own :
  k <> k' -> own_lookup k' (own_replace k v own) = own_lookup k' own.
Proof.
  intros Hne. induction own as [|[k'' v''] rest IH]; simpl; [done|].
  destruct (decide (k = k'')) as [->|Hne']; simpl.
  - by rewrite !decide_False by done.
  - destruct (decide (k' = k'')); [done | apply IH].
Qed.

Lemma own_lookup_insert_index_eq i k v own :
  array_index k = Some i -> own_lookup k (insert_index i k v own) = Some v.
Proof.
  intros Hk. induction own as [|[k' v'] rest IH]; simpl.
  - by rewrite decide_True.
  - destruct (array_index k') as [j|] eqn:Hk'; [|simpl; by rewrite decide_True].
    destruct (j <? i)%N eqn:Hlt; simpl; [|by rewrite decide_True].
    rewrite decide_False; [apply IH|].
    intros ->. rewrite Hk in Hk'. injection Hk' as ->.
    apply N.ltb_lt in Hlt. lia.
Qed.

Lemma own_lookup_insert_index_ne i k k' v own :
  k <> k' -> own_lookup k' (insert_index i k v own) = own_lookup k' own.
Proof.
  intros Hne. induction own as [|[k'' v''] rest IH]; simpl.
  - by rewrite decide_False by done.
  - destruct (array_index k'') as [j|]; [destruct (j <? i)%N|]; simpl;
      rewrite ?(decide_False (P := k' = k)) by done; try done.
    destruct (decide (k' = k'')); [done | apply IH].
Qed.

Lemma own_lookup_app_None k own1 own2 :
  own_lookup k own1 = None -> own_lookup k (own1 ++ own2) = own_lookup k own2.
Proof.
  induction own1 as [|[k' v'] rest IH]; simpl; [done|].
  destruct (decide (k = k')); [done | apply IH].
Qed.

Lemma own_lookup_app_Some k v own1 own2 :
  own_lookup k own1 = Some v -> own_lookup k (own1 ++ own2) = Some v.
Proof.
  induction own1 as [|[k' v'] rest IH]; simpl; [done|].
  destruct (decide (k = k')); [done | apply IH].
Qed.

Lemma own_lookup_add_eq k v own :
  own_lookup k own = None -> own_lookup k (own_add k v own) = Some v.
Proof.
  intros Hnone. unfold own_add.
  destruct (array_index k) as [i|] eqn:Hk.
  - by apply own_lookup_insert_index_eq.
  - rewrite own_lookup_app_None by done. simpl. by rewrite decide_True.
Qed.

Lemma own_lookup_add_ne k k' v own :
  k <> k' -> own_lookup k' (own_add k v own) = own_lookup k' own.
Proof.
  intros Hne. unfold own_add. destruct (array_index k) as [i|].
  - by apply own_lookup_insert_index_ne.
  - destruct (own_lookup k' own) as [v'|] eqn:Hk'.
    + by apply own_lookup_app_Some.
    + rewrite own_lookup_app_None by done. simpl. by rewrite decide_False.
Qed.

Lemma own_keys_insert_index i k v own :
  own_keys (insert_index i k v own) ≡ₚ k :: own_keys own.
Proof.
  induction own as [|[k' v'] rest IH]; simpl; [done|].
  destruct (array_index k') as [j|]; [destruct (j <? i)%N|]; simpl; try done.
  rewrite IH. apply Permutation_swap.
Qed.

Lemma own_keys_add k v own : own_keys (own_add k v own) ≡ₚ k :: own_keys own.
Proof.
  unfold own_add. destruct (array_index k).
  - apply own_keys_insert_index.
  - unfold own_keys. rewrite map_app. simpl.
    symmetry. apply Permutation_cons_append.
Qed.
End OwnFacts.

(** ** Objects *)

Section ObjectFacts.
Context {Call : Type}.
Implicit Types (o : Obj Call) (k : string) (f : FunctionObject Call).

Lemma empty_object_distinct_keys : distinct_keys (@empty_object Call).
Proof. apply NoDup_nil_2. Qed.

Lemma obj_set_distinct_keys o k f o' :
  distinct_keys o -> obj_set o k f = Normal o' -> distinct_keys o'.
Proof.
  unfold distinct_keys, obj_set. intros Hnd.
  destruct (own_lookup k (own o)) eqn:Hk.
  - intros [= <-]. simpl. by rewrite own_keys_replace.
  - assert (NoDup (own_keys (own_add k f (own o)))) as Hadd.
    { rewrite own_keys_add. apply NoDup_cons. split; [|done].
      by apply own_lookup_None. }
    destruct (proto_slot (proto o) k) as [|v [|]| |]; intros [= <-]; done.
Qed.

Lemma has_own_property_true o k :
  has_own_property o k = true <-> is_Some (own_lookup k (own o)).
Proof.
  unfold has_own_property. destruct (own_lookup k (own o)).
  - split; [by eexists | done].
  - split; [done | by intros [? ?]].
Qed.

Lemma has_own_property_false o k :
  has_own_property o k = false <-> k ∉ own_keys (own o).
Proof.
  rewrite <- own_lookup_None. unfold has_own_property.
  destruct (own_lookup k (own o)); split; done.
Qed.

(** An own property is read back whatever the prototype is. *)
Lemma obj_get_own o k f :
  own_lookup k (own o) = Some f -> obj_get o k = Normal (VFunction f).
Proof. unfold obj_get. by intros ->. Qed.

(** On an object that still has [%Object.prototype%] as its prototype,
    assigning any key but [__proto__] succeeds, keeps the prototype, and
    the key then reads as the assigned function. *)
Lemma obj_set_get_plain o k f :
  proto o = ObjectPrototype -> k <> "__proto__" ->
  exists o', obj_set o k f = Normal o' /\
             proto o' = ObjectPrototype /\
             obj_get o' k = Normal (VFunction f).
Proof.
  intros Hproto Hk. unfold obj_set.
  destruct (own_lookup k (own o)) eqn:Hown.
  - eexists. split; [done|]. split; [done|].
    apply obj_get_own. simpl. apply own_lookup_replace_eq. by eexists.
  - assert (exists o', Normal {| own := own_add k f (own o); proto := proto o |}
                       = Normal o' /\ proto o' = ObjectPrototype /\
                       obj_get o' k = Normal (VFunction f)) as Hadd.
    { eexists. split; [done|]. split; [done|].
      apply obj_get_own. simpl. by apply own_lookup_add_eq. }
    rewrite Hproto in *. simpl. unfold object_prototype_slot.
    rewrite decide_False by done.
    destruct (bool_decide _); exact Hadd.
Qed.

(** ... and every other key reads as before. *)
Lemma obj_set_get_plain_ne o k k' f o' :
  proto o = ObjectPrototype -> k <> "__proto__" -> k <> k' ->
  obj_set o k f = Normal o' -> obj_get o' k' = obj_get o k'.
Proof.
  intros Hproto Hk Hne. unfold obj_set.
  destruct (own_lookup k (own o)) eqn:Hown.
  - intros [= <-]. unfold obj_get. simpl. by rewrite own_lookup_replace_ne.
  - rewrite Hproto. simpl. unfold object_prototype_slot.
    rewrite decide_False by done.
    destruct (bool_decide _); intros [= <-]; unfold obj_get; simpl;
      by rewrite own_lookup_add_ne, Hproto.
Qed.

(** A key that is not an own key and is not a property of
    [%Object.prototype%] reads as [undefined]. *)
Lemma obj_get_plain_absent o k :
  proto o = ObjectPrototype ->
  k ∉ own_keys (own o) -> k <> "__proto__" -> k ∉ object_prototype_methods ->
  obj_get o k = Normal VUndefined.
Proof.
  intros Hproto Hown Hk Hmeth. unfold obj_get.
  apply own_lookup_None in Hown. rewrite Hown, Hproto. simpl.
  unfold object_prototype_slot. rewrite decide_False by done.
  by rewrite bool_decide_eq_false_2.
Qed.
End ObjectFacts.

(** ** Dispatch *)

Section DispatchFacts.
Context {Any Scene AssetContainer World : Type}.
Implicit Types (o : Obj (@BabylonFileParserCall Any Scene AssetContainer World)).
Implicit Types (jsonData : Any) (scene : Scene) (container : AssetContainer).
Implicit Types (rootUrl : string) (w : World).

Lemma own_lookup_map_object {C D : Type}
    (g : string -> FunctionObject C -> FunctionObject D) (ob : Obj C) k :
  own_lookup k (own (map_object g ob)) = g k <$> own_lookup k (own ob).
Proof.
  unfold map_object. simpl.
  induction (own ob) as [|[k' f'] rest IH]; simpl; [done|].
  destruct (decide (k = k')) as [->|Hne]; [done | apply IH].
Qed.

Lemma own_keys_map_object {C D : Type}
    (g : string -> FunctionObject C -> FunctionObject D) (ob : Obj C) :
  own_keys (own (map_object g ob)) = own_keys (own ob).
Proof.
  unfold map_object, own_keys. simpl. rewrite map_map. by apply map_ext.
Qed.

Lemma call_property_own o k p jsonData scene container rootUrl w :
  own_lookup k (own o) = Some p ->
  call_property o k jsonData scene container rootUrl w
  = fn_call p jsonData scene container rootUrl w.
Proof. intros Hk. unfold call_property. by rewrite (obj_get_own _ _ _ Hk). Qed.

(** Keys that are not own keys are skipped by the guard. *)
Lemma dispatch_not_own o keys jsonData scene container rootUrl w :
  Forall (fun k => k ∉ own_keys (own o)) keys ->
  dispatch o keys jsonData scene container rootUrl w = (Normal tt, w).
Proof.
  induction 1 as [|k keys Hk _ IH]; simpl; [done|].
  apply has_own_property_false in Hk. by rewrite Hk.
Qed.

Lemma dispatch_app o keys1 keys2 jsonData scene container rootUrl w :
  dispatch o (keys1 ++ keys2) jsonData scene container rootUrl w
  = match dispatch o keys1 jsonData scene container rootUrl w with
    | (Normal _, w') => dispatch o keys2 jsonData scene container rootUrl w'
    | (Abrupt e, w') => (Abrupt e, w')
    end.
Proof.
  revert w. induction keys1 as [|k keys1 IH]; intros w; simpl; [done|].
  destruct (has_own_property o k); [|apply IH].
  destruct (call_property o k jsonData scene container rootUrl w) as [[u|e] w'];
    [apply IH | done].
Qed.

(** The inherited keys that [for-in] lists after the own keys have no
    effect: the loop is a loop over the own keys. *)
Lemma dispatch_for_in_keys o jsonData scene container rootUrl w :
  dispatch o (for_in_keys o) jsonData scene container rootUrl w
  = dispatch o (own_keys (own o)) jsonData scene container rootUrl w.
Proof.
  unfold for_in_keys. rewrite dispatch_app.
  destruct (dispatch o (own_keys (own o)) _ _ _ _ w) as [[[]|e] w']; [|done].
  apply dispatch_not_own, Forall_forall.
  intros k Hk. by apply list_elem_of_filter in Hk as [Hk _].
Qed.

(** One step of the loop at an own key. *)
Lemma dispatch_cons_own o k p keys jsonData scene container rootUrl w :
  own_lookup k (own o) = Some p ->
  dispatch o (k :: keys) jsonData scene container rootUrl w
  = match fn_call p jsonData scene container rootUrl w with
    | (Normal _, w') => dispatch o keys jsonData scene container rootUrl w'
    | (Abrupt e, w') => (Abrupt e, w')
    end.
Proof.
  intros Hk. simpl.
  assert (has_own_property o k = true) as ->.
  { apply has_own_property_true. by eexists. }
  by rewrite (call_property_own _ _ _ _ _ _ _ _ Hk).
Qed.

End DispatchFacts.

Section SpyFacts.
Context {Any Scene AssetContainer World : Type}.
Implicit Types (o : Obj (@BabylonFileParserCall Any Scene AssetContainer World)).
Implicit Types (jsonData : Any) (scene : Scene) (container : AssetContainer).
Implicit Types (rootUrl : string) (w : World).

Lemma dispatch_cons_own_spy o k p keys jsonData scene container rootUrl w
    (log : list (Invocation Any Scene AssetContainer)) :
  own_lookup k (own o) = Some p ->
  dispatch (map_object spy o) (k :: keys) jsonData scene container rootUrl (w, log)
  = match fn_call p jsonData scene container rootUrl w with
    | (Normal _, w') =>
        dispatch (map_object spy o) keys jsonData scene container rootUrl
          (w', log ++ [invocation_of jsonData scene container rootUrl k])
    | (Abrupt e, w') =>
        (Abrupt e, (w', log ++ [invocation_of jsonData scene container rootUrl k]))
    end.
Proof.
  intros Hk.
  rewrite (dispatch_cons_own _ k (spy k p)).
  - simpl. by destruct (fn_call p jsonData scene container rootUrl w) as [[u|e] w'].
  - by rewrite own_lookup_map_object, Hk.
Qed.

(** The loop over a run of entries whose parsers all return: each is
    called once, in order, with the arguments of [Parse]. *)
Lemma dispatch_entries o entries jsonData scene container rootUrl :
  (forall k p, (k, p) ∈ entries -> own_lookup k (own o) = Some p) ->
  (forall k p w0, (k, p) ∈ entries ->
     exists w1, fn_call p jsonData scene container rootUrl w0 = (Normal tt, w1)) ->
  forall w log, exists w',
    dispatch o (own_keys entries) jsonData scene container rootUrl w
    = (Normal tt, w') /\
    dispatch (map_object spy o) (own_keys entries)
      jsonData scene container rootUrl (w, log)
    = (Normal tt,
       (w', log ++ map (invocation_of jsonData scene container rootUrl)
                       (own_keys entries))).
Proof.
  induction entries as [|[k p] entries IH]; intros Hown Hret w log.
  - exists w. simpl. by rewrite app_nil_r.
  - assert (own_lookup k (own o) = Some p) as Hk
      by apply Hown, list_elem_of_here.
    destruct (Hret k p w) as [w1 Hw1]; [apply list_elem_of_here|].
    destruct (IH (fun k' p' H => Hown k' p' (list_elem_of_further _ _ _ H))
                 (fun k' p' w0 H => Hret k' p' w0 (list_elem_of_further _ _ _ H))
                 w1 (log ++ [invocation_of jsonData scene container rootUrl k]))
      as (w' & Hplain & Hspy).
    exists w'. cbn [own_keys map fst].
    rewrite (dispatch_cons_own _ _ _ _ _ _ _ _ _ Hk),
            (dispatch_cons_own_spy _ _ _ _ _ _ _ _ _ _ Hk).
    unfold BabylonFileParserCall in *. rewrite Hw1.
    split; [exact Hplain|].
    unfold own_keys in Hspy. rewrite Hspy. by rewrite <- app_assoc.
Qed.
End SpyFacts.

(** ** [Parse] *)

Section ParseFacts.
Context {Any Scene AssetContainer World : Type}.
Implicit Types (st : Statics Any Scene AssetContainer World).
Implicit Types (jsonData : Any) (scene : Scene) (container : AssetContainer).
Implicit Types (rootUrl : string) (w : World).

(** C2.  With three parsers registered, if the first returns and the
    second throws, [Parse] ends with the exception the second parser
    threw and with the world that parser left, which it reached from the
    world the first parser produced: nothing is caught and nothing is
    rolled back.  The log of the spies holds the first two invocations
    only: the third parser is not invoked. *)
Theorem Parse_stops_at_first_exception st n1 p1 n2 p2 n3 p3
    jsonData scene container rootUrl w0 w1 w2 e :
  own (_BabylonFileParsers st) = [(n1, p1); (n2, p2); (n3, p3)] ->
  NoDup [n1; n2; n3] ->
  fn_call p1 jsonData scene container rootUrl w0 = (Normal tt, w1) ->
  fn_call p2 jsonData scene container rootUrl w1 = (Abrupt e, w2) ->
  Parse jsonData scene container rootUrl st w0 = (Abrupt e, w2) /\
  Parse jsonData scene container rootUrl (spied st) (w0, [])
  = (Abrupt e,
     (w2, [ invocation_of jsonData scene container rootUrl n1;
            invocation_of jsonData scene container rootUrl n2 ])).
Proof.
  intros Hown Hnd H1 H2. unfold Parse. cbn [spied _BabylonFileParsers].
  rewrite !dispatch_for_in_keys, own_keys_map_object.
  assert (distinct_keys (_BabylonFileParsers st)) as Hdk.
  { unfold distinct_keys. by rewrite Hown. }
  assert (own_lookup n1 (own (_BabylonFileParsers st)) = Some p1) as Hn1.
  { apply own_lookup_elem; [done|]. rewrite Hown. apply list_elem_of_here. }
  assert (own_lookup n2 (own (_BabylonFileParsers st)) = Some p2) as Hn2.
  { apply own_lookup_elem; [done|]. rewrite Hown.
    apply list_elem_of_further, list_elem_of_here. }
  rewrite Hown. cbn [own_keys map fst].
  rewrite (dispatch_cons_own _ _ _ _ _ _ _ _ _ Hn1),
          (dispatch_cons_own_spy _ _ _ _ _ _ _ _ _ _ Hn1).
  unfold BabylonFileParserCall in *. rewrite H1.
  rewrite (dispatch_cons_own _ _ _ _ _ _ _ _ _ Hn2),
          (dispatch_cons_own_spy _ _ _ _ _ _ _ _ _ _ Hn2).
  unfold BabylonFileParserCall in *. by rewrite H2.
Qed.
End ParseFacts.

Lemma Parse_stops_at_first_exception_witness :
  Parse 7 1 2 "assets/" Sample.second_throwing ["start"]
  = (Abrupt (Thrown "mesh"), ["start"; "geometry"; "mesh"]) /\
  Parse 7 1 2 "assets/" (spied Sample.second_throwing) (["start"], [])
  = (Abrupt (Thrown "mesh"),
     (["start"; "geometry"; "mesh"],
      [ invocation_of 7 1 2 "assets/" "geometry";
        invocation_of 7 1 2 "assets/" "mesh" ])).
Proof.
  apply (Parse_stops_at_first_exception Sample.second_throwing
           "geometry" (Sample.returning "geometry")
           "mesh" (Sample.throwing "mesh")
           "light" (Sample.returning "light")
           7 1 2 "assets/" ["start"] ["start"; "geometry"]).
  - reflexivity.
  - apply (bool_decide_unpack _). reflexivity.
  - reflexivity.
  - reflexivity.
Defined.

(** ** Registration and lookup *)

Section RegistryFacts.
Context {Any Scene AssetContainer World : Type}.
Implicit Types (st : Statics Any Scene AssetContainer World) (name : string).

(** The two registries are separate objects: a registration in one leaves
    the other as it is, whatever the name. *)
Lemma AddParser_individual_unchanged st name parser st' :
  AddParser name parser st = Normal st' ->
  _IndividualBabylonFileParsers st' = _IndividualBabylonFileParsers st.
Proof.
  unfold AddParser.
  destruct (obj_set (_BabylonFileParsers st) name parser); [|done].
  by intros [= <-].
Qed.

Lemma AddIndividualParser_whole_scene_unchanged st name parser st' :
  AddIndividualParser name parser st = Normal st' ->
  _BabylonFileParsers st' = _BabylonFileParsers st.
Proof.
  unfold AddIndividualParser.
  destruct (obj_set (_IndividualBabylonFileParsers st) name parser); [|done].
  by intros [= <-].
Qed.

(** While the registry has [%Object.prototype%] as its prototype, a
    registration under any name but [__proto__] succeeds, and a lookup of
    that name then gives the registered parser. *)
Lemma AddParser_GetParser_plain st name parser :
  proto (_BabylonFileParsers st) = ObjectPrototype -> name <> "__proto__" ->
  exists st', AddParser name parser st = Normal st' /\
              proto (_BabylonFileParsers st') = ObjectPrototype /\
              GetParser name st' = Normal (VFunction parser).
Proof.
  intros Hproto Hname.
  destruct (obj_set_get_plain (_BabylonFileParsers st) name parser Hproto Hname)
    as (o' & Hset & Hproto' & Hget).
  unfold AddParser, GetParser. rewrite Hset. eexists. split; [done|].
  simpl. by rewrite Hget.
Qed.

Lemma AddIndividualParser_GetIndividualParser_plain st name parser :
  proto (_IndividualBabylonFileParsers st) = ObjectPrototype ->
  name <> "__proto__" ->
  exists st', AddIndividualParser name parser st = Normal st' /\
              proto (_IndividualBabylonFileParsers st') = ObjectPrototype /\
              GetIndividualParser name st' = Normal (VFunction parser).
Proof.
  intros Hproto Hname.
  destruct (obj_set_get_plain (_IndividualBabylonFileParsers st) name parser
              Hproto Hname) as (o' & Hset & Hproto' & Hget).
  unfold AddIndividualParser, GetIndividualParser. rewrite Hset.
  eexists. split; [done|]. simpl. by rewrite Hget.
Qed.

(** A second registration under the same name replaces the first. *)
Lemma AddParser_twice_plain st name p1 p2 :
  proto (_BabylonFileParsers st) = ObjectPrototype -> name <> "__proto__" ->
  exists st1 st2, AddParser name p1 st = Normal st1 /\
                  AddParser name p2 st1 = Normal st2 /\
                  GetParser name st2 = Normal (VFunction p2).
Proof.
  intros Hproto Hname.
  destruct (AddParser_GetParser_plain st name p1 Hproto Hname)
    as (st1 & Hadd1 & Hproto1 & _).
  destruct (AddParser_GetParser_plain st1 name p2 Hproto1 Hname)
    as (st2 & Hadd2 & _ & Hget).
  by exists st1, st2.
Qed.

(** ... and it leaves the lookup of every other name as it was. *)
Lemma AddParser_GetParser_other_plain st name other parser st' :
  proto (_BabylonFileParsers st) = ObjectPrototype -> name <> "__proto__" ->
  name <> other ->
  AddParser name parser st = Normal st' ->
  GetParser other st' = GetParser other st.
Proof.
  intros Hproto Hname Hne. unfold AddParser.
  destruct (obj_set (_BabylonFileParsers st) name parser) as [o'|] eqn:Hset;
    [|done].
  intros [= <-]. unfold GetParser. simpl.
  by rewrite (obj_set_get_plain_ne _ _ _ _ _ Hproto Hname Hne Hset).
Qed.

(** A name that is neither registered nor a property of
    [%Object.prototype%] is looked up as [null]. *)
Lemma GetParser_unregistered_plain st name :
  proto (_BabylonFileParsers st) = ObjectPrototype ->
  name ∉ own_keys (own (_BabylonFileParsers st)) ->
  name <> "__proto__" -> name ∉ object_prototype_methods ->
  GetParser name st = Normal VNull.
Proof.
  intros Hproto Hown Hname Hmeth. unfold GetParser.
  by rewrite (obj_get_plain_absent _ _ Hproto Hown Hname Hmeth).
Qed.

Lemma GetIndividualParser_unregistered_plain st name :
  proto (_IndividualBabylonFileParsers st) = ObjectPrototype ->
  name ∉ own_keys (own (_IndividualBabylonFileParsers st)) ->
  name <> "__proto__" -> name ∉ object_prototype_methods ->
  GetIndividualParser name st = Normal VNull.
Proof.
  intros Hproto Hown Hname Hmeth. unfold GetIndividualParser.
  by rewrite (obj_get_plain_absent _ _ Hproto Hown Hname Hmeth).
Qed.

(** Registration keeps the own keys of the registry distinct. *)
Lemma AddParser_distinct_keys st name parser st' :
  distinct_keys (_BabylonFileParsers st) ->
  AddParser name parser st = Normal st' ->
  distinct_keys (_BabylonFileParsers st').
Proof.
  intros Hnd. unfold AddParser.
  destruct (obj_set (_BabylonFileParsers st) name parser) as [o'|] eqn:Hset;
    [|done].
  intros [= <-]. simpl. by eapply obj_set_distinct_keys.
Qed.
End RegistryFacts.

(** *** Registration order and enumeration order *)

(** Three registrations on the registries as created produce the sample
    registry, with its entries in the order of the registrations. *)
Example all_returning_by_registration :
  match AddParser "geometry" (Sample.returning "geometry") initial with
  | Normal st1 =>
      match AddParser "mesh" (Sample.returning "mesh") st1 with
      | Normal st2 => AddParser "light" (Sample.returning "light") st2
      | Abrupt e => Abrupt e
      end
  | Abrupt e => Abrupt e
  end = Normal Sample.all_returning.
Proof. reflexivity. Qed.

(** Names that are array indices are enumerated first, in numeric order,
    whenever they were registered; [Parse] follows that order. *)
Example Parse_enumeration_order :
  match AddParser "mesh" (Sample.returning "mesh") initial with
  | Normal st1 =>
      match AddParser "10" (Sample.returning "10") st1 with
      | Normal st2 =>
          match AddParser "2" (Sample.returning "2") st2 with
          | Normal st3 =>
              own_keys (own (_BabylonFileParsers st3)) = ["2"; "10"; "mesh"] /\
              Parse 7 1 2 "assets/" st3 [] = (Normal tt, ["2"; "10"; "mesh"])
          | Abrupt _ => False
          end
      | Abrupt _ => False
      end
  | Abrupt _ => False
  end.
Proof. split; reflexivity. Qed.

(** *** Names that reach the prototype

    The registries are created by [{}], so they inherit from
    [%Object.prototype%], and neither the lookups nor the registrations test
    for own properties as the loop of [Parse] does.  The following
    evaluations show what follows for the names that the prototype chain
    knows. *)

(** C6.  On the registries as they are created, where no name was ever
    registered, the lookup of a name of a method of [%Object.prototype%]
    does not give [null]: it gives the inherited built-in function.  This
    holds for each of the eleven methods, in both registries; the name
    [__proto__] gives the prototype object itself. *)
Theorem GetParser_unregistered_inherited_name :
  GetParser "toString" (@initial nat nat nat Sample.World)
  = Normal (VForeign (FObject "Object.prototype.toString")) /\
  GetIndividualParser "toString" (@initial nat nat nat Sample.World)
  = Normal (VForeign (FObject "Object.prototype.toString")) /\
  Forall (fun name =>
            GetParser name (@initial nat nat nat Sample.World)
            = Normal (VForeign (FObject ("Object.prototype." ++ name))) /\
            GetIndividualParser name (@initial nat nat nat Sample.World)
            = Normal (VForeign (FObject ("Object.prototype." ++ name))))
         object_prototype_methods /\
  GetParser "__proto__" (@initial nat nat nat Sample.World)
  = Normal (VForeign (FObject "Object.prototype")).
Proof.
  split; [reflexivity|]. split; [reflexivity|]. split; [|reflexivity].
  unfold object_prototype_methods.
  repeat (apply Forall_cons; split; [split; reflexivity|]).
  apply Forall_nil_2.
Qed.

(** C9.  On the registries as they are created, [AddParser("__proto__", f)]
    adds no entry to the registry and makes [f] its prototype.  The lookup
    of the other name [call], which gave [null] before, then gives the
    method that [f] inherits from [%Function.prototype%].  The same holds
    of [AddIndividualParser] and [GetIndividualParser]. *)
Theorem AddParser_proto_changes_other_lookup :
  GetParser "call" (@initial nat nat nat Sample.World) = Normal VNull /\
  (exists st',
     AddParser "__proto__" (Sample.returning "f") initial = Normal st' /\
     own (_BabylonFileParsers st') = [] /\
     GetParser "call" st'
     = Normal (VForeign (FObject "Function.prototype.call"))) /\
  GetIndividualParser "call" (@initial nat nat nat Sample.World) = Normal VNull /\
  (exists st',
     AddIndividualParser "__proto__" (Sample.individual "f")
       (@initial nat nat nat Sample.World) = Normal st' /\
     own (_IndividualBabylonFileParsers st') = [] /\
     GetIndividualParser "call" st'
     = Normal (VForeign (FObject "Function.prototype.call"))).
Proof.
  split; [reflexivity|]. split; [by eexists|].
  split; [reflexivity|]. by eexists.
Qed.

(** C4.  In the registry state reached by [AddParser("__proto__", f)],
    [AddParser("name", g)] throws a [TypeError], because [name] is a
    read-only property of the function [f] that the registry now inherits
    from; [GetParser("name")] gives the string that is the name of [f], not
    [g].  The same holds of the individual registry. *)
Theorem AddParser_then_GetParser_inherited_read_only :
  (exists st,
     AddParser "__proto__" (Sample.returning "f") initial = Normal st /\
     AddParser "name" (Sample.returning "g") st
     = Abrupt (TypeError "assignment to read-only property") /\
     GetParser "name" st = Normal (VForeign (FString "f"))) /\
  (exists st,
     AddIndividualParser "__proto__" (Sample.individual "f")
       (@initial nat nat nat Sample.World) = Normal st /\
     AddIndividualParser "name" (Sample.individual "g") st
     = Abrupt (TypeError "assignment to read-only property") /\
     GetIndividualParser "name" st = Normal (VForeign (FString "f"))).
Proof. split; by eexists. Qed.

(** C5.  In the registry state reached by [AddParser("__proto__", f)],
    both of two successive registrations under the name [length] throw a
    [TypeError], and [GetParser("length")] gives the number of parameters of
    [f]: the second parser is not what the name yields. *)
Theorem AddParser_twice_inherited_read_only :
  exists st,
    AddParser "__proto__" (Sample.returning "f") initial = Normal st /\
    AddParser "length" (Sample.returning "p1") st
    = Abrupt (TypeError "assignment to read-only property") /\
    AddParser "length" (Sample.returning "p2") st
    = Abrupt (TypeError "assignment to read-only property") /\
    GetParser "length" st = Normal (VForeign (FNumber 4)).
Proof. by eexists. Qed.

(** C1.  In the registry state reached from three registered parsers by
    [AddParser("__proto__", f)], the parser [f] was accepted by [AddParser]
    and is what [GetParser("__proto__")] returns, but it is no entry of the
    registry: [Parse] invokes the three other parsers, each once and in
    order, and does not invoke [f]. *)
Theorem Parse_skips_parser_registered_under_proto :
  exists st,
    AddParser "__proto__" (Sample.returning "f") Sample.all_returning = Normal st /\
    GetParser "__proto__" st = Normal (VFunction (Sample.returning "f")) /\
    Parse 7 1 2 "assets/" st ["start"]
    = (Normal tt, ["start"; "geometry"; "mesh"; "light"]) /\
    Parse 7 1 2 "assets/" (spied st) (["start"], [])
    = (Normal tt,
       (["start"; "geometry"; "mesh"; "light"],
        map (invocation_of 7 1 2 "assets/") ["geometry"; "mesh"; "light"])).
Proof. by eexists. Qed.

(** ** The heap *)

Section HeapFacts.
Implicit Types (h t : Heap) (a b : loc) (xs ys : list loc).

Lemma array_at_Some h a xs : array_at h a = Some xs <-> h !! a = Some (Arr xs).
Proof.
  unfold array_at. destruct (h !! a) as [[]|]; split; congruence.
Qed.

Lemma array_at_app h t a xs :
  array_at h a = Some xs -> array_at (h ++ t) a = Some xs.
Proof.
  rewrite !array_at_Some. apply lookup_app_l_Some.
Qed.

Lemma array_at_alloc h xs : array_at (h ++ [Arr xs]) (length h) = Some xs.
Proof. apply array_at_Some, list_lookup_middle. done. Qed.

Lemma array_at_allocated h a xs : array_at h a = Some xs -> a < length h.
Proof. rewrite array_at_Some. apply lookup_lt_Some. Qed.

Lemma bones_at_app h t s xs :
  bones_at h s = Some xs -> bones_at (h ++ t) s = Some xs.
Proof.
  unfold bones_at. destruct (h !! s) as [[| b |]|] eqn:Hs; try done.
  rewrite (lookup_app_l_Some _ _ _ _ Hs). apply array_at_app.
Qed.

Lemma new_Array_run h : new_Array h = Some (length h, h ++ [Arr []]).
Proof. done. Qed.

(** [a.concat(b)] on two arrays allocates their concatenation and leaves
    the heap below it as it was. *)
Lemma concat_run h a b xs ys :
  array_at h a = Some xs -> array_at h b = Some ys ->
  concat a b h = Some (length h, h ++ [Arr (xs ++ ys)]).
Proof.
  rewrite !array_at_Some. intros Ha Hb.
  unfold concat, bind, read_array. by rewrite Ha, Hb.
Qed.

(** The loop over the skeletons: each iteration replaces [nodes] by a new
    array that has the bones of the skeleton appended. *)
Lemma forEach_bones ss : forall bs h nodes acc,
  array_at h nodes = Some acc ->
  Forall2 (fun skeleton bones => bones_at h skeleton = Some bones) ss bs ->
  exists nodes' t,
    forEach ss (fun nodes skeleton =>
                  bones <- get_bones skeleton ;; concat nodes bones) nodes h
    = Some (nodes', h ++ t) /\
    nodes <= nodes' /\
    array_at (h ++ t) nodes' = Some (acc ++ List.concat bs).
Proof.
  induction ss as [|s ss IH]; intros bs h nodes acc Hnodes Hbones.
  - apply Forall2_nil_inv_l in Hbones as ->.
    exists nodes, []. simpl. rewrite !app_nil_r. by split.
  - apply Forall2_cons_inv_l in Hbones as (b & bs' & Hs & Hrest & ->).
    pose proof Hs as Hs'. unfold bones_at in Hs'.
    destruct (h !! s) as [[| bl |]|] eqn:Hlook; try done.
    set (h1 := h ++ [Arr (acc ++ b)]).
    destruct (IH bs' h1 (length h) (acc ++ b)) as (nodes' & t & Hrun & Hle & Hres).
    { apply array_at_alloc. }
    { eapply Forall2_impl; [exact Hrest|]. intros s' b' H'.
      by apply bones_at_app. }
    exists nodes', ([Arr (acc ++ b)] ++ t).
    rewrite app_assoc. fold h1. split; [|split].
    + cbn [forEach]. unfold bind at 1. unfold bind at 1.
      unfold get_bones. rewrite Hlook.
      rewrite (concat_run h nodes bl acc b Hnodes Hs'). exact Hrun.
    + apply array_at_allocated in Hnodes. lia.
    + simpl. by rewrite app_assoc.
Qed.
End HeapFacts.

(** ** [getNodes] *)

(** Membership of a field in the list of the sequences. *)
Ltac in_sequences :=
  unfold sequences;
  repeat first [ apply list_elem_of_here | apply list_elem_of_further ].

Section GetNodesFacts.
Implicit Types (h t : Heap) (this : Fields).
Implicit Types (ms ls cs ts ss : list loc) (bs : list (list loc)).

(** A run of [getNodes]: the heap only grows, and the array returned is
    one of the new ones. *)
Lemma getNodes_run h this ms ls cs ts ss bs :
  array_at h (meshes this) = Some ms ->
  array_at h (lights this) = Some ls ->
  array_at h (cameras this) = Some cs ->
  array_at h (transformNodes this) = Some ts ->
  array_at h (skeletons this) = Some ss ->
  Forall2 (fun skeleton bones => bones_at h skeleton = Some bones) ss bs ->
  exists nodes t,
    getNodes this h = Some (nodes, h ++ t) /\
    length h <= nodes /\
    array_at (h ++ t) nodes = Some (ms ++ ls ++ cs ++ ts ++ List.concat bs).
Proof.
  intros Hms Hls Hcs Hts Hss Hbs.
  set (h0 := h ++ [Arr []]).
  set (h1 := h0 ++ [Arr ([] ++ ms)]).
  set (h2 := h1 ++ [Arr (([] ++ ms) ++ ls)]).
  set (h3 := h2 ++ [Arr ((([] ++ ms) ++ ls) ++ cs)]).
  set (h4 := h3 ++ [Arr (((([] ++ ms) ++ ls) ++ cs) ++ ts)]).
  assert (forall a xs, array_at h a = Some xs -> array_at h4 a = Some xs) as Hup.
  { intros a xs Ha. unfold h4, h3, h2, h1, h0. by do 5 apply array_at_app. }
  destruct (forEach_bones ss bs h4 (length h3)
              ((((([] ++ ms) ++ ls) ++ cs) ++ ts)))
    as (nodes & t & Hrun & Hle & Hres).
  { apply array_at_alloc. }
  { eapply Forall2_impl; [exact Hbs|]. intros s' b' H'.
    unfold h4, h3, h2, h1, h0. by do 5 apply bones_at_app. }
  exists nodes, ([Arr []] ++ [Arr ([] ++ ms)] ++ [Arr (([] ++ ms) ++ ls)] ++
                 [Arr ((([] ++ ms) ++ ls) ++ cs)] ++
                 [Arr (((([] ++ ms) ++ ls) ++ cs) ++ ts)] ++ t).
  assert (h ++ [Arr []] ++ [Arr ([] ++ ms)] ++ [Arr (([] ++ ms) ++ ls)] ++
          [Arr ((([] ++ ms) ++ ls) ++ cs)] ++
          [Arr (((([] ++ ms) ++ ls) ++ cs) ++ ts)] ++ t = h4 ++ t) as ->.
  { unfold h4, h3, h2, h1, h0. by rewrite <- !app_assoc. }
  split; [|split].
  - unfold getNodes.
    unfold bind at 1. rewrite new_Array_run. fold h0.
    unfold bind at 1.
    rewrite (concat_run h0 (length h) (meshes this) [] ms)
      by (try apply array_at_alloc; by apply array_at_app).
    fold h1. unfold bind at 1.
    rewrite (concat_run h1 (length h0) (lights this) ([] ++ ms) ls)
      by (try apply array_at_alloc; unfold h1, h0; by do 2 apply array_at_app).
    fold h2. unfold bind at 1.
    rewrite (concat_run h2 (length h1) (cameras this) (([] ++ ms) ++ ls) cs)
      by (try apply array_at_alloc; unfold h2, h1, h0; by do 3 apply array_at_app).
    fold h3. unfold bind at 1.
    rewrite (concat_run h3 (length h2) (transformNodes this)
               ((([] ++ ms) ++ ls) ++ cs) ts)
      by (try apply array_at_alloc; unfold h3, h2, h1, h0; by do 4 apply array_at_app).
    fold h4. unfold bind at 1. unfold read_array.
    apply Hup, array_at_Some in Hss. rewrite Hss. exact Hrun.
  - assert (length h < length h3) as Hlt.
    { unfold h3, h2, h1, h0. rewrite !length_app. simpl. lia. }
    lia.
  - rewrite Hres. f_equal. simpl. by rewrite <- !app_assoc.
Qed.

(** C3.  In every container state, [getNodes()] returns an array whose
    elements are the meshes, then the lights, then the cameras, then the
    transform nodes, then the bones of each skeleton in the stored order
    of the skeletons and of their bones.  Nothing is removed, and nothing
    else is added: no other field of the container is read. *)
Theorem getNodes_is_concatenation h this ms ls cs ts ss bs :
  array_at h (meshes this) = Some ms ->
  array_at h (lights this) = Some ls ->
  array_at h (cameras this) = Some cs ->
  array_at h (transformNodes this) = Some ts ->
  array_at h (skeletons this) = Some ss ->
  mapM (bones_at h) ss = Some bs ->
  exists nodes h',
    getNodes this h = Some (nodes, h') /\
    array_at h' nodes = Some (ms ++ ls ++ cs ++ ts ++ List.concat bs).
Proof.
  intros Hms Hls Hcs Hts Hss Hbs. apply mapM_Some in Hbs.
  destruct (getNodes_run h this ms ls cs ts ss bs) as (nodes & t & Hrun & _ & Hres);
    try done.
  by exists nodes, (h ++ t).
Qed.

(** What a well-typed heap gives for a container. *)
Lemma well_typed_sequences h this :
  well_typed h this = true ->
  Forall (fun a => is_Some (array_at h a)) (sequences this).
Proof.
  unfold well_typed. intros [Hseq _]%andb_prop.
  apply Forall_forall. intros a Ha.
  rewrite forallb_forall in Hseq.
  apply list_elem_of_In, Hseq in Ha. by apply bool_decide_eq_true in Ha.
Qed.

Lemma well_typed_skeletons h this :
  well_typed h this = true ->
  exists ss bs,
    array_at h (skeletons this) = Some ss /\
    Forall2 (fun skeleton bones => bones_at h skeleton = Some bones) ss bs.
Proof.
  unfold well_typed. intros [_ Hsk]%andb_prop.
  destruct (array_at h (skeletons this)) as [ss|]; [|done].
  exists ss. rewrite forallb_forall in Hsk.
  assert (Forall (fun s => is_Some (bones_at h s)) ss) as Hall.
  { apply Forall_forall. intros s Hs.
    apply list_elem_of_In, Hsk in Hs. by apply bool_decide_eq_true in Hs. }
  clear Hsk. induction Hall as [|s ss [b Hb] _ [bs IH]].
  - exists []. split; [done | constructor].
  - destruct IH as [_ IH]. exists (b :: bs). split; [done | by constructor].
Qed.

(** C7.  Two successive calls of [getNodes()] return two different
    arrays, each allocated by its call, and neither is one of the
    container's sequences.  Whatever is then written to either of them is
    read back from it, while every sequence of the container, and every
    object that was on the heap before the calls, is as it was before, and
    the other returned array is not affected. *)
Theorem getNodes_returns_fresh_snapshot h this :
  well_typed h this = true ->
  exists nodes1 h1 nodes2 h2,
    getNodes this h = Some (nodes1, h1) /\
    getNodes this h1 = Some (nodes2, h2) /\
    nodes1 <> nodes2 /\
    (h !! nodes1 = None) /\ (h1 !! nodes2 = None) /\
    (nodes1 ∉ sequences this) /\ (nodes2 ∉ sequences this) /\
    (forall xs a, a ∈ sequences this ->
       array_at (write_array nodes1 xs h2) a = array_at h a /\
       array_at (write_array nodes2 xs h2) a = array_at h a) /\
    (forall xs a, is_Some (h !! a) ->
       write_array nodes1 xs h2 !! a = h !! a /\
       write_array nodes2 xs h2 !! a = h !! a) /\
    (forall xs, array_at (write_array nodes1 xs h2) nodes1 = Some xs /\
                array_at (write_array nodes1 xs h2) nodes2 = array_at h2 nodes2 /\
                array_at (write_array nodes2 xs h2) nodes2 = Some xs /\
                array_at (write_array nodes2 xs h2) nodes1 = array_at h2 nodes1).
Proof.
  intros Hwt.
  pose proof (well_typed_sequences h this Hwt) as Hseq.
  destruct (well_typed_skeletons h this Hwt) as (ss & bs & Hss & Hbs).
  assert (forall a, a ∈ sequences this -> is_Some (array_at h a)) as Hfield
    by (by apply Forall_forall).
  destruct (Hfield (meshes this)) as [ms Hms]; [in_sequences|].
  destruct (Hfield (lights this)) as [ls Hls]; [in_sequences|].
  destruct (Hfield (cameras this)) as [cs Hcs]; [in_sequences|].
  destruct (Hfield (transformNodes this)) as [ts Hts]; [in_sequences|].
  destruct (getNodes_run h this ms ls cs ts ss bs)
    as (nodes1 & t1 & Hrun1 & Hle1 & Hres1); try done.
  destruct (getNodes_run (h ++ t1) this ms ls cs ts ss bs)
    as (nodes2 & t2 & Hrun2 & Hle2 & Hres2); try (by apply array_at_app).
  { eapply Forall2_impl; [exact Hbs|]. intros s' b' H'. by apply bones_at_app. }
  apply array_at_allocated in Hres1 as Hlt1.
  apply array_at_allocated in Hres2 as Hlt2.
  assert (forall a, is_Some (h !! a) -> a < length h) as Hold
    by (intros a [o Ho]; by apply lookup_lt_Some in Ho).
  assert (forall a, a ∈ sequences this -> a < length h) as Hseqlt.
  { intros a Ha. destruct (Hfield a Ha) as [xs Hxs].
    by apply array_at_allocated in Hxs. }
  assert (forall nodes xs a, length h <= nodes -> a < length h ->
            write_array nodes xs ((h ++ t1) ++ t2) !! a = h !! a) as Hframe.
  { intros nodes xs a Hnodes Ha. unfold write_array.
    rewrite list_lookup_insert_ne by lia.
    rewrite <- app_assoc. by apply lookup_app_l. }
  exists nodes1, (h ++ t1), nodes2, ((h ++ t1) ++ t2).
  repeat split; try done.
  - lia.
  - apply lookup_ge_None. lia.
  - apply lookup_ge_None. lia.
  - intros Hin. apply Hseqlt in Hin. lia.
  - intros Hin. apply Hseqlt in Hin. lia.
  - unfold array_at. rewrite Hframe; [done | lia | by apply Hseqlt].
  - unfold array_at. rewrite Hframe; [done | lia | by apply Hseqlt].
  - apply Hframe; [lia | by apply Hold].
  - apply Hframe; [lia | by apply Hold].
  - unfold array_at, write_array. rewrite list_lookup_insert_eq; [done|].
    rewrite length_app. lia.
  - unfold array_at, write_array. by rewrite list_lookup_insert_ne by lia.
  - unfold array_at, write_array. by rewrite list_lookup_insert_eq.
  - unfold array_at, write_array. by rewrite list_lookup_insert_ne by lia.
Qed.
End GetNodesFacts.

Lemma getNodes_is_concatenation_witness :
  exists nodes h',
    getNodes Sample.scene Sample.scene_heap = Some (nodes, h') /\
    array_at h' nodes = Some ([0] ++ [1] ++ [2] ++ [3] ++ List.concat [[4; 5]]).
Proof.
  apply (getNodes_is_concatenation Sample.scene_heap Sample.scene
           [0] [1] [2] [3] [7] [[4; 5]]); reflexivity.
Defined.

Lemma getNodes_returns_fresh_snapshot_witness :
  well_typed Sample.scene_heap Sample.scene = true /\
  exists nodes1 h1 nodes2 h2,
    getNodes Sample.scene Sample.scene_heap = Some (nodes1, h1) /\
    getNodes Sample.scene h1 = Some (nodes2, h2) /\
    nodes1 <> nodes2 /\
    (Sample.scene_heap !! nodes1 = None) /\ (h1 !! nodes2 = None) /\
    (nodes1 ∉ sequences Sample.scene) /\ (nodes2 ∉ sequences Sample.scene) /\
    (forall xs a, a ∈ sequences Sample.scene ->
       array_at (write_array nodes1 xs h2) a = array_at Sample.scene_heap a /\
       array_at (write_array nodes2 xs h2) a = array_at Sample.scene_heap a) /\
    (forall xs a, is_Some (Sample.scene_heap !! a) ->
       write_array nodes1 xs h2 !! a = Sample.scene_heap !! a /\
       write_array nodes2 xs h2 !! a = Sample.scene_heap !! a) /\
    (forall xs, array_at (write_array nodes1 xs h2) nodes1 = Some xs /\
                array_at (write_array nodes1 xs h2) nodes2 = array_at h2 nodes2 /\
                array_at (write_array nodes2 xs h2) nodes2 = Some xs /\
                array_at (write_array nodes2 xs h2) nodes1 = array_at h2 nodes1).
Proof.
  split; [reflexivity|].
  apply (getNodes_returns_fresh_snapshot Sample.scene_heap Sample.scene).
  reflexivity.
Defined.

(** ** The constructor and the environment texture *)

Section ContainerFacts.
Implicit Types (h t : Heap) (this : Fields).

Lemma array_at_app_r h t i : array_at (h ++ t) (length h + i) = array_at t i.
Proof.
  unfold array_at. rewrite lookup_app_r by lia.
  by replace (length h + i - length h) with i by lia.
Qed.

(** The constructor allocates sixteen empty arrays, one for each
    sequence, and nothing else. *)
Lemma new_AbstractScene_run h :
  new_AbstractScene h
  = Some ({| rootNodes := length h + 0; cameras := length h + 1;
             lights := length h + 2; meshes := length h + 3;
             skeletons := length h + 4; particleSystems := length h + 5;
             animations := length h + 6; animationGroups := length h + 7;
             multiMaterials := length h + 8; materials := length h + 9;
             morphTargetManagers := length h + 10; geometries := length h + 11;
             transformNodes := length h + 12; actionManagers := length h + 13;
             textures := length h + 14; _environmentTexture := None;
             postProcesses := length h + 15 |},
          h ++ replicate 16 (Arr [])).
Proof.
  unfold new_AbstractScene, bind, new_Array, alloc, ret.
  rewrite !length_app. simpl. rewrite <- !app_assoc. simpl.
  do 2 f_equal. f_equal; lia.
Qed.

(** C8.  Reading the environment texture after setting it gives the value
    that was set, for every value: a texture or [null].  On a freshly
    constructed container it reads as [null]. *)
Theorem environmentTexture_set_then_get :
  (forall value this,
     get_environmentTexture (set_environmentTexture value this) = value) /\
  (forall h, exists this h',
     new_AbstractScene h = Some (this, h') /\
     get_environmentTexture this = None).
Proof.
  split; [done|].
  intros h. eexists _, _. split; [apply new_AbstractScene_run | done].
Qed.

(** C10, amended.  A freshly constructed container has sixteen
    sequences, which are sixteen different arrays, all empty, and its
    environment texture is [null]; [getNodes()] on it returns an empty
    array. *)
Theorem new_AbstractScene_is_empty h :
  exists this h',
    new_AbstractScene h = Some (this, h') /\
    length (sequences this) = 16 /\
    NoDup (sequences this) /\
    Forall (fun a => array_at h' a = Some []) (sequences this) /\
    get_environmentTexture this = None /\
    exists nodes h'',
      getNodes this h' = Some (nodes, h'') /\ array_at h'' nodes = Some [].
Proof.
  eexists _, _. split; [apply new_AbstractScene_run|].
  assert (forall i, i < 16 ->
            array_at (h ++ replicate 16 (Arr [])) (length h + i) = Some []) as Hempty.
  { intros i Hi. rewrite array_at_app_r. unfold array_at.
    by rewrite lookup_replicate_2. }
  split; [done|]. split; [|split; [|split; [done|]]].
  - unfold sequences. cbn [rootNodes cameras lights meshes skeletons
      particleSystems animations animationGroups multiMaterials materials
      morphTargetManagers geometries transformNodes actionManagers textures
      postProcesses].
    assert (Inj eq eq (Nat.add (length h))) by (intros ? ? ?; lia).
    apply (NoDup_fmap_2 (Nat.add (length h)) (seq 0 16)), NoDup_seq.
  - unfold sequences. repeat (apply Forall_cons; split; [apply Hempty; lia|]).
    apply Forall_nil_2.
  - match goal with
    | |- context [getNodes ?this _] =>
        destruct (getNodes_run (h ++ replicate 16 (Arr [])) this
                    [] [] [] [] [] []) as (nodes & t & Hrun & _ & Hres);
          try (apply Hempty; lia); [constructor|]
    end.
    by exists nodes, ((h ++ replicate 16 (Arr [])) ++ t).
Qed.
End ContainerFacts.

(** The count in C10 as it was stated: the sequences of a fresh container
    are not seventeen. *)
Lemma new_AbstractScene_not_seventeen_sequences :
  ~ (exists this h',
       new_AbstractScene [] = Some (this, h') /\
       length (sequences this) = 17 /\
       Forall (fun a => array_at h' a = Some []) (sequences this) /\
       get_environmentTexture this = None).
Proof.
  intros (this & h' & _ & Hlen & _). simpl in Hlen. lia.
Qed.

(** * Further properties of the registries *)

Section ObjectFacts2.
Context {Call : Type}.
Implicit Types (o : Obj Call) (k : string) (f : FunctionObject Call).



(** No property of [%Object.prototype%] throws when it is read. *)
Lemma obj_get_plain_normal o k :
  proto o = ObjectPrototype -> exists v, obj_get o k = Normal v.
Proof.
  intros Hproto. unfold obj_get. destruct (own_lookup k (own o)); [by eexists|].
  rewrite Hproto. simpl. unfold object_prototype_slot.
  destruct (decide (k = "__proto__")); [by eexists|].
  destruct (bool_decide _); by eexists.
Qed.

(** What the guarded read of [GetParser] and [GetIndividualParser] gives. *)
Lemma guarded_read_null_or_truthy o k v :
  match obj_get o k with
  | Normal v0 => if to_boolean v0 then obj_get o k else Normal VNull
  | Abrupt e => Abrupt e
  end = Normal v ->
  v = VNull \/ to_boolean v = true.
Proof.
  destruct (obj_get o k) as [v0|e] eqn:Hget; [|done].
  destruct (to_boolean v0) eqn:Hb.
  - intros [= <-]. by right.
  - intros [= <-]. by left.
Qed.
End ObjectFacts2.

Section RegistryFacts2.
Context {Any Scene AssetContainer World : Type}.
Implicit Types (st : Statics Any Scene AssetContainer World) (name : string).

Lemma AddIndividualParser_GetIndividualParser_other_plain st name other parser st' :
  proto (_IndividualBabylonFileParsers st) = ObjectPrototype ->
  name <> "__proto__" -> name <> other ->
  AddIndividualParser name parser st = Normal st' ->
  GetIndividualParser other st' = GetIndividualParser other st.
Proof.
  intros Hproto Hname Hne. unfold AddIndividualParser.
  destruct (obj_set (_IndividualBabylonFileParsers st) name parser) as [o'|] eqn:Hset;
    [|done].
  intros [= <-]. unfold GetIndividualParser. simpl.
  by rewrite (obj_set_get_plain_ne _ _ _ _ _ Hproto Hname Hne Hset).
Qed.

(** X1.  For each of the two registries on its own: while that registry
    has [%Object.prototype%] as its prototype, whatever the other registry
    is, registering a parser under a name that is neither [__proto__] nor
    the name of a property of [%Object.prototype%] succeeds, and a lookup
    of that name then returns that parser. *)
Theorem register_then_lookup st name parser individual :
  name <> "__proto__" -> name ∉ object_prototype_methods ->
  (proto (_BabylonFileParsers st) = ObjectPrototype ->
   exists st', AddParser name parser st = Normal st' /\
               GetParser name st' = Normal (VFunction parser)) /\
  (proto (_IndividualBabylonFileParsers st) = ObjectPrototype ->
   exists st', AddIndividualParser name individual st = Normal st' /\
               GetIndividualParser name st' = Normal (VFunction individual)).
Proof.
  intros Hname _. split; intros Hproto.
  - destruct (AddParser_GetParser_plain st name parser Hproto Hname)
      as (st' & Hadd & _ & Hget). by exists st'.
  - destruct (AddIndividualParser_GetIndividualParser_plain st name individual
                Hproto Hname) as (st' & Hadd & _ & Hget). by exists st'.
Qed.


(** X3.  For each of the two registries on its own: while that registry
    has [%Object.prototype%] as its prototype, whatever the other registry
    is, a registration in it that returns, under a name other than
    [__proto__], leaves its lookup of every other name as it was. *)
Theorem registration_leaves_other_names st name other parser individual :
  name <> "__proto__" -> name <> other ->
  (proto (_BabylonFileParsers st) = ObjectPrototype ->
   forall st1, AddParser name parser st = Normal st1 ->
               GetParser other st1 = GetParser other st) /\
  (proto (_IndividualBabylonFileParsers st) = ObjectPrototype ->
   forall st2, AddIndividualParser name individual st = Normal st2 ->
               GetIndividualParser other st2 = GetIndividualParser other st).
Proof.
  intros Hname Hne. split; intros Hproto st' Hadd.
  - by eapply AddParser_GetParser_other_plain.
  - by eapply AddIndividualParser_GetIndividualParser_other_plain.
Qed.

(** X5.  For each of the two registries on its own: while that registry
    has [%Object.prototype%] as its prototype, whatever the other registry
    is and holds, its lookup of a name that is not registered in it and
    is not the name of a property of [%Object.prototype%] returns
    [null]. *)
Theorem lookup_of_unregistered_name st name :
  name <> "__proto__" -> name ∉ object_prototype_methods ->
  (proto (_BabylonFileParsers st) = ObjectPrototype ->
   name ∉ own_keys (own (_BabylonFileParsers st)) ->
   GetParser name st = Normal VNull) /\
  (proto (_IndividualBabylonFileParsers st) = ObjectPrototype ->
   name ∉ own_keys (own (_IndividualBabylonFileParsers st)) ->
   GetIndividualParser name st = Normal VNull).
Proof.
  intros Hname Hmeth. split; intros Hproto Hown.
  - by apply GetParser_unregistered_plain.
  - by apply GetIndividualParser_unregistered_plain.
Qed.

(** X6.  For each of the two registries on its own: while that registry
    has [%Object.prototype%] as its prototype, its lookup of any name
    returns without throwing, and what it returns is [null] or truthy,
    never [undefined]. *)
Theorem lookup_returns_null_or_truthy st name :
  (proto (_BabylonFileParsers st) = ObjectPrototype ->
   exists v, GetParser name st = Normal v /\
             (v = VNull \/ to_boolean v = true)) /\
  (proto (_IndividualBabylonFileParsers st) = ObjectPrototype ->
   exists v, GetIndividualParser name st = Normal v /\
             (v = VNull \/ to_boolean v = true)).
Proof.
  split; intros Hproto.
  - destruct (GetParser name st) as [v|e] eqn:Hget.
    + exists v. split; [done|]. revert Hget. apply guarded_read_null_or_truthy.
    + unfold GetParser in Hget.
      destruct (obj_get_plain_normal _ name Hproto) as [v Hv]. rewrite Hv in Hget.
      by destruct (to_boolean v).
  - destruct (GetIndividualParser name st) as [v|e] eqn:Hget.
    + exists v. split; [done|]. revert Hget. apply guarded_read_null_or_truthy.
    + unfold GetIndividualParser in Hget.
      destruct (obj_get_plain_normal _ name Hproto) as [v Hv]. rewrite Hv in Hget.
      by destruct (to_boolean v).
Qed.

(** X7.  With distinct own keys, every entry of the registry is what
    [GetParser] returns under its name, whatever the prototype of the
    registry is: the parsers that [Parse] runs are exactly the ones the
    lookups of their names return. *)
Theorem entries_are_found st name parser :
  distinct_keys (_BabylonFileParsers st) ->
  (name, parser) ∈ own (_BabylonFileParsers st) ->
  GetParser name st = Normal (VFunction parser).
Proof.
  intros Hnd Hin. unfold GetParser.
  by rewrite (obj_get_own _ name parser (own_lookup_elem _ _ _ Hnd Hin)).
Qed.

(** X8.  As long as no registration uses the name [__proto__], both
    registries keep [%Object.prototype%] as their prototype and keep
    their own keys distinct. *)
Theorem safely_reached_invariant st :
  safely_reached st ->
  proto (_BabylonFileParsers st) = ObjectPrototype /\
  proto (_IndividualBabylonFileParsers st) = ObjectPrototype /\
  distinct_keys (_BabylonFileParsers st) /\
  distinct_keys (_IndividualBabylonFileParsers st).
Proof.
  induction 1 as [| st name parser st' _ (Hw & Hi & Hdw & Hdi) Hname Hadd
                  | st name parser st' _ (Hw & Hi & Hdw & Hdi) Hname Hadd].
  - repeat split; apply NoDup_nil_2.
  - destruct (AddParser_GetParser_plain st name parser Hw Hname)
      as (st'' & Hadd' & Hw' & _).
    rewrite Hadd in Hadd'. injection Hadd' as <-.
    pose proof (AddParser_individual_unchanged _ _ _ _ Hadd) as Heq.
    rewrite Heq. repeat split; try done.
    by eapply AddParser_distinct_keys.
  - destruct (AddIndividualParser_GetIndividualParser_plain st name parser Hi Hname)
      as (st'' & Hadd' & Hi' & _).
    rewrite Hadd in Hadd'. injection Hadd' as <-.
    pose proof (AddIndividualParser_whole_scene_unchanged _ _ _ _ Hadd) as Heq.
    rewrite Heq. repeat split; try done.
    unfold AddIndividualParser in Hadd.
    destruct (obj_set (_IndividualBabylonFileParsers st) name parser) as [o'|] eqn:Hset;
      [|done].
    injection Hadd as <-. simpl. by eapply obj_set_distinct_keys.
Qed.
End RegistryFacts2.

Lemma register_then_lookup_witness :
  (exists st', AddParser "camera" (Sample.returning "camera") Mixed.st = Normal st' /\
               GetParser "camera" st' = Normal (VFunction (Sample.returning "camera"))) /\
  (exists st', AddIndividualParser "mesh" (Sample.individual "mesh") Mixed.st'
               = Normal st' /\
               GetIndividualParser "mesh" st'
               = Normal (VFunction (Sample.individual "mesh"))).
Proof.
  split.
  - apply (register_then_lookup Mixed.st "camera"
             (Sample.returning "camera") (Sample.individual "camera")).
    + discriminate.
    + apply (bool_decide_unpack _). reflexivity.
    + reflexivity.
  - apply (register_then_lookup Mixed.st' "mesh"
             (Sample.returning "mesh") (Sample.individual "mesh")).
    + discriminate.
    + apply (bool_decide_unpack _). reflexivity.
    + reflexivity.
Defined.


Lemma registration_leaves_other_names_witness :
  (exists st1,
     AddParser "camera" (Sample.returning "camera") Mixed.st = Normal st1 /\
     GetParser "mesh" st1 = GetParser "mesh" Mixed.st) /\
  (exists st2,
     AddIndividualParser "mesh" (Sample.individual "mesh") Mixed.st' = Normal st2 /\
     GetIndividualParser "camera" st2 = GetIndividualParser "camera" Mixed.st').
Proof.
  split.
  - eexists. split; [reflexivity|].
    apply (registration_leaves_other_names Mixed.st "camera" "mesh"
             (Sample.returning "camera") (Sample.individual "camera"));
      try reflexivity; discriminate.
  - eexists. split; [reflexivity|].
    apply (registration_leaves_other_names Mixed.st' "mesh" "camera"
             (Sample.returning "mesh") (Sample.individual "mesh"));
      try reflexivity; discriminate.
Defined.

Lemma lookup_of_unregistered_name_witness :
  GetParser "camera" Mixed.st = Normal VNull /\
  GetIndividualParser "mesh" Mixed.st' = Normal VNull.
Proof.
  split.
  - apply (lookup_of_unregistered_name Mixed.st "camera").
    + discriminate.
    + apply (bool_decide_unpack _). reflexivity.
    + reflexivity.
    + apply (bool_decide_unpack _). reflexivity.
  - apply (lookup_of_unregistered_name Mixed.st' "mesh").
    + discriminate.
    + apply (bool_decide_unpack _). reflexivity.
    + reflexivity.
    + apply (bool_decide_unpack _). reflexivity.
Defined.

Lemma lookup_returns_null_or_truthy_witness :
  (exists v, GetParser "valueOf" Mixed.st = Normal v /\
             (v = VNull \/ to_boolean v = true)) /\
  (exists v, GetIndividualParser "mesh" Mixed.st' = Normal v /\
             (v = VNull \/ to_boolean v = true)).
Proof.
  split.
  - apply (lookup_returns_null_or_truthy Mixed.st "valueOf"). reflexivity.
  - apply (lookup_returns_null_or_truthy Mixed.st' "mesh"). reflexivity.
Defined.

Lemma entries_are_found_witness :
  GetParser "mesh" Reparented.all_returning
  = Normal (VFunction (Sample.returning "mesh")).
Proof.
  apply (entries_are_found Reparented.all_returning "mesh" (Sample.returning "mesh")).
  - unfold distinct_keys. simpl. apply (bool_decide_unpack _). reflexivity.
  - simpl. apply list_elem_of_further, list_elem_of_here.
Defined.

Lemma safely_reached_invariant_witness :
  proto (_BabylonFileParsers Sample.all_returning) = ObjectPrototype /\
  proto (_IndividualBabylonFileParsers Sample.all_returning) = ObjectPrototype /\
  distinct_keys (_BabylonFileParsers Sample.all_returning) /\
  distinct_keys (_IndividualBabylonFileParsers Sample.all_returning).
Proof.
  apply (safely_reached_invariant Sample.all_returning).
  eapply (reached_AddParser _ "light" (Sample.returning "light"));
    [ eapply (reached_AddParser _ "mesh" (Sample.returning "mesh"));
      [ eapply (reached_AddParser initial "geometry" (Sample.returning "geometry"));
        [ apply reached_initial | discriminate | reflexivity ]
      | discriminate | reflexivity ]
    | discriminate | reflexivity ].
Defined.

(** * Further properties of [Parse] *)

Section ParseFacts2.
Context {Any Scene AssetContainer World : Type}.
Implicit Types (st : Statics Any Scene AssetContainer World).
Implicit Types (o : Obj (@BabylonFileParserCall Any Scene AssetContainer World)).
Implicit Types (jsonData : Any) (scene : Scene) (container : AssetContainer).
Implicit Types (rootUrl : string) (w : World).

(** The loop reads the object through the own properties of the keys it
    visits, and through nothing else. *)
Lemma dispatch_ext o o' keys jsonData scene container rootUrl w :
  (forall k, k ∈ keys -> own_lookup k (own o) = own_lookup k (own o')) ->
  dispatch o keys jsonData scene container rootUrl w
  = dispatch o' keys jsonData scene container rootUrl w.
Proof.
  revert w. induction keys as [|k keys IH]; intros w Hagree; [done|].
  assert (forall w0, dispatch o keys jsonData scene container rootUrl w0
                     = dispatch o' keys jsonData scene container rootUrl w0) as IH'.
  { intros w0. apply IH. intros k' Hk'. by apply Hagree, list_elem_of_further. }
  pose proof (Hagree k (list_elem_of_here _ _)) as Hk.
  simpl. unfold has_own_property, call_property, obj_get. rewrite Hk.
  destruct (own_lookup k (own o')) as [f|]; [|apply IH'].
  destruct (fn_call f jsonData scene container rootUrl w) as [[u|e] w1];
    [apply IH' | done].
Qed.

(** An exception that the loop ends with was thrown by a parser of an
    entry. *)
Lemma dispatch_abrupt o keys jsonData scene container rootUrl : forall w e w',
  dispatch o keys jsonData scene container rootUrl w = (Abrupt e, w') ->
  exists k p w0, (k, p) ∈ own o /\
                 fn_call p jsonData scene container rootUrl w0 = (Abrupt e, w').
Proof.
  induction keys as [|k keys IH]; intros w e w'; simpl; [done|].
  unfold has_own_property.
  destruct (own_lookup k (own o)) as [f|] eqn:Hk; [|apply IH].
  rewrite (call_property_own _ _ _ _ _ _ _ _ Hk).
  destruct (fn_call f jsonData scene container rootUrl w) as [[u|e1] w1] eqn:Hcall.
  - apply IH.
  - intros [= <- <-]. exists k, f, w. split; [|done].
    by apply own_lookup_Some_elem.
Qed.

Lemma Parse_own_ext st st' jsonData scene container rootUrl w :
  own (_BabylonFileParsers st) = own (_BabylonFileParsers st') ->
  Parse jsonData scene container rootUrl st w
  = Parse jsonData scene container rootUrl st' w.
Proof.
  intros Hown. unfold Parse. rewrite !dispatch_for_in_keys, Hown.
  apply dispatch_ext. intros k _. by rewrite Hown.
Qed.

(** X9.  For registries whose prototype is [%Object.prototype%] or an
    ordinary function object, [Parse] depends on the registry only through
    its own entries: two such states with the same entries give the same
    run, whatever enumerable properties their prototypes have, because
    the guard of the loop skips every inherited key. *)
Theorem Parse_reads_own_entries_only st st' jsonData scene container rootUrl w :
  own (_BabylonFileParsers st) = own (_BabylonFileParsers st') ->
  Parse jsonData scene container rootUrl st w
  = Parse jsonData scene container rootUrl st' w.
Proof. apply Parse_own_ext. Qed.

(** X10.  On a registry without entries whose prototype is
    [%Object.prototype%] or an ordinary function object, [Parse] invokes
    nothing and returns with the world unchanged, also when that function
    has enumerable properties. *)
Theorem Parse_without_entries st jsonData scene container rootUrl w :
  own (_BabylonFileParsers st) = [] ->
  Parse jsonData scene container rootUrl st w = (Normal tt, w) /\
  Parse jsonData scene container rootUrl (spied st) (w, []) = (Normal tt, (w, [])).
Proof.
  intros Hown. unfold Parse. cbn [spied _BabylonFileParsers].
  rewrite !dispatch_for_in_keys, own_keys_map_object, Hown. done.
Qed.

(** The loop over a run of entries of the object is the run of their
    parsers, and the spies log the keys that run invokes. *)
Lemma dispatch_run o
    (entries : list (string * FunctionObject
                       (@BabylonFileParserCall Any Scene AssetContainer World)))
    jsonData scene container rootUrl :
  (forall k p, (k, p) ∈ entries -> own_lookup k (own o) = Some p) ->
  forall w (log : list (Invocation Any Scene AssetContainer)),
    dispatch o (own_keys entries) jsonData scene container rootUrl w
    = run_entries entries jsonData scene container rootUrl w /\
    dispatch (map_object spy o) (own_keys entries)
      jsonData scene container rootUrl (w, log)
    = (fst (run_entries entries jsonData scene container rootUrl w),
       (snd (run_entries entries jsonData scene container rootUrl w),
        log ++ map (invocation_of jsonData scene container rootUrl)
                   (invoked_keys entries jsonData scene container rootUrl w))).
Proof.
  induction entries as [|[k p] entries IH]; intros Hfind w log.
  - simpl. by rewrite app_nil_r.
  - assert (own_lookup k (own o) = Some p) as Hk
      by apply Hfind, list_elem_of_here.
    cbn [own_keys map fst].
    rewrite (dispatch_cons_own _ _ _ _ _ _ _ _ _ Hk),
            (dispatch_cons_own_spy _ _ _ _ _ _ _ _ _ _ Hk).
    cbn [run_entries invoked_keys].
    destruct (fn_call p jsonData scene container rootUrl w) as [[u|e] w1];
      cbv beta iota.
    + destruct (IH (fun k' p' H => Hfind k' p' (list_elem_of_further _ _ _ H))
                   w1 (log ++ [invocation_of jsonData scene container rootUrl k]))
        as [Hplain Hspy].
      unfold own_keys in Hplain, Hspy. rewrite Hplain, Hspy.
      split; [done|]. by rewrite <- app_assoc.
    + done.
Qed.

(** A run that returns has called the parser of every entry. *)
Lemma invoked_keys_all
    (entries : list (string * FunctionObject
                       (@BabylonFileParserCall Any Scene AssetContainer World)))
    jsonData scene container rootUrl : forall w w',
  run_entries entries jsonData scene container rootUrl w = (Normal tt, w') ->
  invoked_keys entries jsonData scene container rootUrl w = own_keys entries.
Proof.
  induction entries as [|[k p] entries IH]; intros w w'; [done|].
  cbn [run_entries invoked_keys own_keys map fst].
  destruct (fn_call p jsonData scene container rootUrl w) as [[u|e] w1]; [|done].
  intros Hrun. f_equal. by eapply IH.
Qed.

(** The keys a run invokes are an initial part of the keys of the
    entries. *)
Lemma invoked_keys_prefix
    (entries : list (string * FunctionObject
                       (@BabylonFileParserCall Any Scene AssetContainer World)))
    jsonData scene container rootUrl : forall w,
  invoked_keys entries jsonData scene container rootUrl w
  `prefix_of` own_keys entries.
Proof.
  induction entries as [|[k p] entries IH]; intros w; [done|].
  cbn [invoked_keys own_keys map fst]. apply prefix_cons.
  destruct (fn_call p jsonData scene container rootUrl w) as [[u|e] w1].
  - apply IH.
  - apply prefix_nil.
Qed.

(** [Parse] is the run of the own entries. *)
Lemma Parse_run st jsonData scene container rootUrl w :
  distinct_keys (_BabylonFileParsers st) ->
  Parse jsonData scene container rootUrl st w
  = run_entries (own (_BabylonFileParsers st)) jsonData scene container rootUrl w /\
  Parse jsonData scene container rootUrl (spied st) (w, [])
  = (fst (run_entries (own (_BabylonFileParsers st))
            jsonData scene container rootUrl w),
     (snd (run_entries (own (_BabylonFileParsers st))
             jsonData scene container rootUrl w),
      map (invocation_of jsonData scene container rootUrl)
          (invoked_keys (own (_BabylonFileParsers st))
             jsonData scene container rootUrl w))).
Proof.
  intros Hnd. unfold Parse. cbn [spied _BabylonFileParsers].
  rewrite !dispatch_for_in_keys, own_keys_map_object.
  apply (dispatch_run (_BabylonFileParsers st) (own (_BabylonFileParsers st))
           jsonData scene container rootUrl
           (fun k p H => own_lookup_elem k p _ Hnd H) w []).
Qed.


(** X12.  While the registry has [%Object.prototype%] as its prototype, a
    parser registered under a new name that is neither an array index nor
    [__proto__] is put last: [Parse] on the new registry runs as [Parse] on
    the old one and then, if that returned, invokes the new parser. *)
Theorem new_parser_runs_last st name parser :
  proto (_BabylonFileParsers st) = ObjectPrototype ->
  name ∉ own_keys (own (_BabylonFileParsers st)) ->
  array_index name = None -> name <> "__proto__" ->
  exists st',
    AddParser name parser st = Normal st' /\
    forall jsonData scene container rootUrl w,
      Parse jsonData scene container rootUrl st' w
      = match Parse jsonData scene container rootUrl st w with
        | (Normal _, w1) => fn_call parser jsonData scene container rootUrl w1
        | (Abrupt e, w1) => (Abrupt e, w1)
        end.
Proof.
  intros Hproto Hnew Hidx Hname.
  apply own_lookup_None in Hnew.
  assert (obj_set (_BabylonFileParsers st) name parser
          = Normal {| own := own (_BabylonFileParsers st) ++ [(name, parser)];
                      proto := proto (_BabylonFileParsers st) |}) as Hset.
  { unfold obj_set. rewrite Hnew, Hproto. simpl. unfold object_prototype_slot.
    rewrite decide_False by done. unfold own_add. rewrite Hidx.
    by destruct (bool_decide _). }
  unfold AddParser. rewrite Hset. eexists. split; [done|].
  intros jsonData scene container rootUrl w. unfold Parse. cbn [_BabylonFileParsers].
  rewrite !dispatch_for_in_keys. cbn [own].
  unfold own_keys at 1. rewrite map_app. cbn [map fst].
  fold (own_keys (own (_BabylonFileParsers st))).
  rewrite dispatch_app.
  rewrite (dispatch_ext _ (_BabylonFileParsers st)
             (own_keys (own (_BabylonFileParsers st)))).
  - destruct (dispatch (_BabylonFileParsers st) _ _ _ _ _ w) as [[u|e] w1]; [|done].
    rewrite (dispatch_cons_own _ name parser).
    + by destruct (fn_call parser jsonData scene container rootUrl w1) as [[[]|e] w2].
    + cbn [own]. rewrite own_lookup_app_None by done. simpl. by rewrite decide_True.
  - intros k Hk. cbn [own].
    destruct (own_lookup k (own (_BabylonFileParsers st))) as [f|] eqn:Hf.
    + by apply own_lookup_app_Some.
    + apply own_lookup_None in Hf. done.
Qed.

(** X13.  While the registry has [%Object.prototype%] as its prototype,
    [Parse] adds no failure of its own: an exception that [Parse] ends
    with was thrown by the parser of one of the entries, and the world
    [Parse] ends with is the world that parser left. *)
Theorem Parse_exception_comes_from_a_parser st jsonData scene container rootUrl w e w' :
  proto (_BabylonFileParsers st) = ObjectPrototype ->
  Parse jsonData scene container rootUrl st w = (Abrupt e, w') ->
  exists k p w0,
    (k, p) ∈ own (_BabylonFileParsers st) /\
    fn_call p jsonData scene container rootUrl w0 = (Abrupt e, w').
Proof. intros _. unfold Parse. apply dispatch_abrupt. Qed.

(** X21.  While the registry has [%Object.prototype%] as its prototype,
    [Parse] is the run, from the world it starts in, of the parsers of the
    entries in enumeration order, each called in the world the one before
    it left and with the arguments of [Parse].  The log of the spies
    holds the entries that this run invokes: an initial part of the
    entries, each of them once, and all of them when [Parse] returns. *)
Theorem Parse_runs_entries_in_order st jsonData scene container rootUrl w :
  proto (_BabylonFileParsers st) = ObjectPrototype ->
  distinct_keys (_BabylonFileParsers st) ->
  exists invoked,
    Parse jsonData scene container rootUrl st w
    = run_entries (own (_BabylonFileParsers st)) jsonData scene container rootUrl w /\
    Parse jsonData scene container rootUrl (spied st) (w, [])
    = (fst (Parse jsonData scene container rootUrl st w),
       (snd (Parse jsonData scene container rootUrl st w),
        map (invocation_of jsonData scene container rootUrl) invoked)) /\
    invoked `prefix_of` own_keys (own (_BabylonFileParsers st)) /\
    NoDup invoked /\
    (forall w', Parse jsonData scene container rootUrl st w = (Normal tt, w') ->
                invoked = own_keys (own (_BabylonFileParsers st))).
Proof.
  intros _ Hnd.
  destruct (Parse_run st jsonData scene container rootUrl w Hnd) as [Hplain Hspy].
  exists (invoked_keys (own (_BabylonFileParsers st))
            jsonData scene container rootUrl w).
  pose proof (invoked_keys_prefix (own (_BabylonFileParsers st))
                jsonData scene container rootUrl w) as Hprefix.
  split; [done|]. split; [by rewrite Hplain|]. split; [done|]. split.
  - destruct Hprefix as [rest Hrest]. unfold distinct_keys in Hnd.
    rewrite Hrest in Hnd. by apply NoDup_app in Hnd as [? _].
  - intros w' Hret. rewrite Hplain in Hret. by eapply invoked_keys_all.
Qed.
End ParseFacts2.

Lemma Parse_reads_own_entries_only_witness :
  Parse 7 1 2 "assets/" Reparented.all_returning ["start"]
  = Parse 7 1 2 "assets/" Sample.all_returning ["start"].
Proof.
  apply (Parse_reads_own_entries_only Reparented.all_returning Sample.all_returning).
  reflexivity.
Defined.

Lemma Parse_without_entries_witness :
  Parse 7 1 2 "assets/" Reparented.no_entries ["start"] = (Normal tt, ["start"]) /\
  Parse 7 1 2 "assets/" (spied Reparented.no_entries) (["start"], [])
  = (Normal tt, (["start"], [])).
Proof.
  apply (Parse_without_entries Reparented.no_entries 7 1 2 "assets/" ["start"]).
  reflexivity.
Defined.


Lemma new_parser_runs_last_witness :
  exists st',
    AddParser "camera" (Sample.throwing "camera") Sample.all_returning = Normal st' /\
    forall jsonData scene container rootUrl w,
      Parse jsonData scene container rootUrl st' w
      = match Parse jsonData scene container rootUrl Sample.all_returning w with
        | (Normal _, w1) =>
            fn_call (Sample.throwing "camera") jsonData scene container rootUrl w1
        | (Abrupt e, w1) => (Abrupt e, w1)
        end.
Proof.
  apply (new_parser_runs_last Sample.all_returning "camera" (Sample.throwing "camera")).
  - reflexivity.
  - apply (bool_decide_unpack _). reflexivity.
  - reflexivity.
  - discriminate.
Defined.

Lemma Parse_exception_comes_from_a_parser_witness :
  exists k p w0,
    (k, p) ∈ own (_BabylonFileParsers Mixed.order_dependent) /\
    fn_call p 7 1 2 "assets/" w0
    = (Abrupt (Thrown "light"), ["start"; "geometry"; "mesh"; "light"]).
Proof.
  apply (Parse_exception_comes_from_a_parser Mixed.order_dependent
           7 1 2 "assets/" ["start"]); reflexivity.
Defined.

Lemma Parse_runs_entries_in_order_witness :
  exists invoked,
    Parse 7 1 2 "assets/" Mixed.order_dependent ["start"]
    = run_entries (own (_BabylonFileParsers Mixed.order_dependent))
        7 1 2 "assets/" ["start"] /\
    Parse 7 1 2 "assets/" (spied Mixed.order_dependent) (["start"], [])
    = (fst (Parse 7 1 2 "assets/" Mixed.order_dependent ["start"]),
       (snd (Parse 7 1 2 "assets/" Mixed.order_dependent ["start"]),
        map (invocation_of 7 1 2 "assets/") invoked)) /\
    invoked `prefix_of` own_keys (own (_BabylonFileParsers Mixed.order_dependent)) /\
    NoDup invoked /\
    (forall w', Parse 7 1 2 "assets/" Mixed.order_dependent ["start"] = (Normal tt, w') ->
                invoked = own_keys (own (_BabylonFileParsers Mixed.order_dependent))).
Proof.
  apply (Parse_runs_entries_in_order Mixed.order_dependent 7 1 2 "assets/" ["start"]).
  - reflexivity.
  - unfold distinct_keys. simpl. apply (bool_decide_unpack _). reflexivity.
Defined.

(** * The enumeration order of the names *)

Section KeyOrder.
Context {V : Type}.
Implicit Types (k : string) (v : V) (own : list (string * V)).




End KeyOrder.



(** * Further properties of the container *)

Section GetNodesFacts2.
Implicit Types (h t : Heap) (this : Fields).
Implicit Types (ms ls cs ts ss : list loc) (bs : list (list loc)).

(** The loop over the skeletons allocates one array for each skeleton, and
    the array it ends with is the last one allocated, if any. *)
Lemma forEach_bones_count ss : forall bs h nodes acc,
  array_at h nodes = Some acc ->
  Forall2 (fun skeleton bones => bones_at h skeleton = Some bones) ss bs ->
  exists nodes' t,
    forEach ss (fun nodes skeleton =>
                  bones <- get_bones skeleton ;; concat nodes bones) nodes h
    = Some (nodes', h ++ t) /\
    length t = length ss /\
    nodes' = match ss with [] => nodes | _ :: _ => length h + length ss - 1 end.
Proof.
  induction ss as [|s ss IH]; intros bs h nodes acc Hnodes Hbones.
  - exists nodes, []. simpl. by rewrite app_nil_r.
  - apply Forall2_cons_inv_l in Hbones as (b & bs' & Hs & Hrest & ->).
    pose proof Hs as Hs'. unfold bones_at in Hs'.
    destruct (h !! s) as [[| bl |]|] eqn:Hlook; try done.
    destruct (IH bs' (h ++ [Arr (acc ++ b)]) (length h) (acc ++ b))
      as (nodes' & t & Hrun & Hlen & Hlast).
    { apply array_at_alloc. }
    { eapply Forall2_impl; [exact Hrest|]. intros s' b' H'. by apply bones_at_app. }
    exists nodes', ([Arr (acc ++ b)] ++ t). rewrite app_assoc. split; [|split].
    + cbn [forEach]. unfold bind at 1. unfold bind at 1.
      unfold get_bones. rewrite Hlook.
      rewrite (concat_run h nodes bl acc b Hnodes Hs'). exact Hrun.
    + simpl. by rewrite Hlen.
    + rewrite Hlast. rewrite length_app. simpl. destruct ss; simpl; lia.
Qed.

(** The four calls of [concat] before the loop. *)
Lemma getNodes_prefix h this ms ls cs ts ss :
  array_at h (meshes this) = Some ms ->
  array_at h (lights this) = Some ls ->
  array_at h (cameras this) = Some cs ->
  array_at h (transformNodes this) = Some ts ->
  array_at h (skeletons this) = Some ss ->
  getNodes this h
  = forEach ss (fun nodes skeleton =>
                  bones <- get_bones skeleton ;; concat nodes bones)
      (length h + 4)
      (h ++ [Arr []; Arr ms; Arr (ms ++ ls); Arr ((ms ++ ls) ++ cs);
             Arr (((ms ++ ls) ++ cs) ++ ts)]).
Proof.
  intros Hms Hls Hcs Hts Hss.
  set (h0 := h ++ [Arr []]).
  set (h1 := h0 ++ [Arr ([] ++ ms)]).
  set (h2 := h1 ++ [Arr (([] ++ ms) ++ ls)]).
  set (h3 := h2 ++ [Arr ((([] ++ ms) ++ ls) ++ cs)]).
  set (h4 := h3 ++ [Arr (((([] ++ ms) ++ ls) ++ cs) ++ ts)]).
  assert (h ++ [Arr []; Arr ms; Arr (ms ++ ls); Arr ((ms ++ ls) ++ cs);
                Arr (((ms ++ ls) ++ cs) ++ ts)] = h4) as ->.
  { unfold h4, h3, h2, h1, h0. by rewrite <- !app_assoc. }
  assert (length h + 4 = length h3) as ->.
  { unfold h3, h2, h1, h0. rewrite !length_app. simpl. lia. }
  unfold getNodes.
  unfold bind at 1. rewrite new_Array_run. fold h0.
  unfold bind at 1.
  rewrite (concat_run h0 (length h) (meshes this) [] ms)
    by (try apply array_at_alloc; by apply array_at_app).
  fold h1. unfold bind at 1.
  rewrite (concat_run h1 (length h0) (lights this) ([] ++ ms) ls)
    by (try apply array_at_alloc; unfold h1, h0; by do 2 apply array_at_app).
  fold h2. unfold bind at 1.
  rewrite (concat_run h2 (length h1) (cameras this) (([] ++ ms) ++ ls) cs)
    by (try apply array_at_alloc; unfold h2, h1, h0; by do 3 apply array_at_app).
  fold h3. unfold bind at 1.
  rewrite (concat_run h3 (length h2) (transformNodes this)
             ((([] ++ ms) ++ ls) ++ cs) ts)
    by (try apply array_at_alloc; unfold h3, h2, h1, h0; by do 4 apply array_at_app).
  fold h4. unfold bind at 1. unfold read_array.
  assert (array_at h4 (skeletons this) = Some ss) as Hss4.
  { unfold h4, h3, h2, h1, h0. by do 5 apply array_at_app. }
  apply array_at_Some in Hss4. by rewrite Hss4.
Qed.

(** X15.  [getNodes()] writes to no object that exists when it is called:
    the heap after the call is the heap before it followed by the arrays
    the call allocates.  These are five arrays and one more for each
    skeleton, and the array returned is the last of them. *)
Theorem getNodes_allocates h this ms ls cs ts ss bs :
  array_at h (meshes this) = Some ms ->
  array_at h (lights this) = Some ls ->
  array_at h (cameras this) = Some cs ->
  array_at h (transformNodes this) = Some ts ->
  array_at h (skeletons this) = Some ss ->
  mapM (bones_at h) ss = Some bs ->
  exists nodes t,
    getNodes this h = Some (nodes, h ++ t) /\
    length t = 5 + length ss /\
    nodes = length h + 4 + length ss.
Proof.
  intros Hms Hls Hcs Hts Hss Hbs. apply mapM_Some in Hbs.
  rewrite (getNodes_prefix h this ms ls cs ts ss) by done.
  set (front := [Arr []; Arr ms; Arr (ms ++ ls); Arr ((ms ++ ls) ++ cs);
                 Arr (((ms ++ ls) ++ cs) ++ ts)]).
  destruct (forEach_bones_count ss bs (h ++ front) (length h + 4)
              (((ms ++ ls) ++ cs) ++ ts)) as (nodes & t & Hrun & Hlen & Hlast).
  { apply array_at_Some. rewrite lookup_app_r by lia.
    by replace (length h + 4 - length h) with 4 by lia. }
  { eapply Forall2_impl; [exact Hbs|]. intros s' b' H'. by apply bones_at_app. }
  exists nodes, (front ++ t). rewrite app_assoc. split; [exact Hrun|].
  rewrite length_app, Hlen. split; [done|].
  rewrite Hlast, length_app. simpl. destruct ss; simpl; lia.
Qed.

(** X16.  A call of [getNodes()] does not change what the next call
    returns: two successive calls return arrays with the same elements,
    and the array of the first call still has them after the second. *)
Theorem getNodes_twice_same_elements h this :
  well_typed h this = true ->
  exists nodes1 h1 nodes2 h2 elements,
    getNodes this h = Some (nodes1, h1) /\
    getNodes this h1 = Some (nodes2, h2) /\
    array_at h1 nodes1 = Some elements /\
    array_at h2 nodes2 = Some elements /\
    array_at h2 nodes1 = Some elements.
Proof.
  intros Hwt.
  pose proof (well_typed_sequences h this Hwt) as Hseq.
  destruct (well_typed_skeletons h this Hwt) as (ss & bs & Hss & Hbs).
  assert (forall a, a ∈ sequences this -> is_Some (array_at h a)) as Hfield
    by (by apply Forall_forall).
  destruct (Hfield (meshes this)) as [ms Hms]; [in_sequences|].
  destruct (Hfield (lights this)) as [ls Hls]; [in_sequences|].
  destruct (Hfield (cameras this)) as [cs Hcs]; [in_sequences|].
  destruct (Hfield (transformNodes this)) as [ts Hts]; [in_sequences|].
  destruct (getNodes_run h this ms ls cs ts ss bs)
    as (nodes1 & t1 & Hrun1 & _ & Hres1); try done.
  destruct (getNodes_run (h ++ t1) this ms ls cs ts ss bs)
    as (nodes2 & t2 & Hrun2 & _ & Hres2); try (by apply array_at_app).
  { eapply Forall2_impl; [exact Hbs|]. intros s' b' H'. by apply bones_at_app. }
  exists nodes1, (h ++ t1), nodes2, ((h ++ t1) ++ t2). eexists.
  repeat split; try done. by apply array_at_app.
Qed.

(** X17.  The array that [getNodes()] returns is not a view of the
    container: whatever is written afterwards to an array that existed
    before the call, be it a sequence of the container or the bones of a
    skeleton, the returned array keeps its elements. *)
Theorem getNodes_result_is_not_a_view h this :
  well_typed h this = true ->
  exists nodes h1 elements,
    getNodes this h = Some (nodes, h1) /\
    array_at h1 nodes = Some elements /\
    forall a xs, is_Some (h !! a) ->
      array_at (write_array a xs h1) nodes = Some elements.
Proof.
  intros Hwt.
  pose proof (well_typed_sequences h this Hwt) as Hseq.
  destruct (well_typed_skeletons h this Hwt) as (ss & bs & Hss & Hbs).
  assert (forall a, a ∈ sequences this -> is_Some (array_at h a)) as Hfield
    by (by apply Forall_forall).
  destruct (Hfield (meshes this)) as [ms Hms]; [in_sequences|].
  destruct (Hfield (lights this)) as [ls Hls]; [in_sequences|].
  destruct (Hfield (cameras this)) as [cs Hcs]; [in_sequences|].
  destruct (Hfield (transformNodes this)) as [ts Hts]; [in_sequences|].
  destruct (getNodes_run h this ms ls cs ts ss bs)
    as (nodes & t & Hrun & Hle & Hres); try done.
  exists nodes, (h ++ t). eexists. split; [done|]. split; [done|].
  intros a xs [o Ho]. apply lookup_lt_Some in Ho.
  unfold array_at, write_array. rewrite list_lookup_insert_ne by lia.
  exact Hres.
Qed.
End GetNodesFacts2.

Section ConstructorFacts.
Implicit Types (h : Heap) (this : Fields).

(** The sequences of a constructed container are the sixteen addresses
    after the end of the heap it was constructed on. *)
Lemma new_AbstractScene_bounds h this h' :
  new_AbstractScene h = Some (this, h') ->
  h' = h ++ replicate 16 (Arr []) /\
  Forall (fun x => length h <= x < length h + 16) (sequences this).
Proof.
  rewrite new_AbstractScene_run. intros [= <- <-]. split; [done|].
  unfold sequences. simpl. repeat (apply Forall_cons; split; [lia|]).
  apply Forall_nil_2.
Qed.

Lemma new_AbstractScene_is_empty_run h :
  exists this h',
    new_AbstractScene h = Some (this, h') /\
    Forall (fun a => array_at h' a = Some []) (sequences this).
Proof.
  eexists _, _. split; [apply new_AbstractScene_run|].
  assert (forall i, i < 16 ->
            array_at (h ++ replicate 16 (Arr [])) (length h + i) = Some []) as Hempty.
  { intros i Hi. rewrite array_at_app_r. unfold array_at.
    by rewrite lookup_replicate_2. }
  unfold sequences. repeat (apply Forall_cons; split; [apply Hempty; lia|]).
  apply Forall_nil_2.
Qed.

(** X18.  Two containers constructed one after the other share no array,
    and neither shares an array with an object that existed before: every
    sequence of the first is absent from the heap it was constructed on
    and differs from every sequence of the second, a write to a sequence of
    one leaves every sequence of the other empty, and the objects that
    existed before are unchanged. *)
Theorem constructed_containers_share_nothing h :
  exists first h1 second h2,
    new_AbstractScene h = Some (first, h1) /\
    new_AbstractScene h1 = Some (second, h2) /\
    (forall x, x ∈ sequences first -> h !! x = None /\ x ∉ sequences second) /\
    (forall x y xs, x ∈ sequences first -> y ∈ sequences second ->
       array_at (write_array x xs h2) y = Some [] /\
       array_at (write_array y xs h2) x = Some []) /\
    (forall a, is_Some (h !! a) -> h2 !! a = h !! a).
Proof.
  destruct (new_AbstractScene_is_empty_run h) as (first & h1 & Hnew1 & Hempty1).
  destruct (new_AbstractScene_is_empty_run h1) as (second & h2 & Hnew2 & Hempty2).
  destruct (new_AbstractScene_bounds _ _ _ Hnew1) as [Hh1 Hb1].
  destruct (new_AbstractScene_bounds _ _ _ Hnew2) as [Hh2 Hb2].
  rewrite Forall_forall in Hb1, Hb2, Hempty1, Hempty2.
  assert (length h1 = length h + 16) as Hlen1.
  { rewrite Hh1, length_app, length_replicate. done. }
  exists first, h1, second, h2. split; [done|]. split; [done|]. split; [|split].
  - intros x Hx. apply Hb1 in Hx as Hxb. split.
    + apply lookup_ge_None. lia.
    + intros Hy. apply Hb2 in Hy. lia.
  - intros x y xs Hx Hy.
    apply Hb1 in Hx as Hxb. apply Hb2 in Hy as Hyb.
    split.
    + transitivity (array_at h2 y); [|by apply Hempty2].
      unfold array_at, write_array. by rewrite list_lookup_insert_ne by lia.
    + transitivity (array_at h2 x).
      * unfold array_at, write_array. by rewrite list_lookup_insert_ne by lia.
      * rewrite Hh2. apply array_at_app. by apply Hempty1.
  - intros a [o Ho]. rewrite Hh2, Hh1, <- app_assoc.
    apply lookup_app_l. by apply lookup_lt_Some in Ho.
Qed.
End ConstructorFacts.

Lemma getNodes_allocates_witness :
  exists nodes t,
    getNodes Sample.scene Sample.scene_heap = Some (nodes, Sample.scene_heap ++ t) /\
    length t = 5 + length [7] /\
    nodes = length Sample.scene_heap + 4 + length [7].
Proof.
  apply (getNodes_allocates Sample.scene_heap Sample.scene
           [0] [1] [2] [3] [7] [[4; 5]]); reflexivity.
Defined.

Lemma getNodes_twice_same_elements_witness :
  exists nodes1 h1 nodes2 h2 elements,
    getNodes Sample.scene Sample.scene_heap = Some (nodes1, h1) /\
    getNodes Sample.scene h1 = Some (nodes2, h2) /\
    array_at h1 nodes1 = Some elements /\
    array_at h2 nodes2 = Some elements /\
    array_at h2 nodes1 = Some elements.
Proof.
  apply (getNodes_twice_same_elements Sample.scene_heap Sample.scene).
  reflexivity.
Defined.

Lemma getNodes_result_is_not_a_view_witness :
  exists nodes h1 elements,
    getNodes Sample.scene Sample.scene_heap = Some (nodes, h1) /\
    array_at h1 nodes = Some elements /\
    forall a xs, is_Some (Sample.scene_heap !! a) ->
      array_at (write_array a xs h1) nodes = Some elements.
Proof.
  apply (getNodes_result_is_not_a_view Sample.scene_heap Sample.scene).
  reflexivity.
Defined.

(** * Registration under the name [__proto__] *)

Section ProtoFacts.
Context {Any Scene AssetContainer World : Type}.
Implicit Types (st : Statics Any Scene AssetContainer World) (name : string).

(** X19.  While the registry has [%Object.prototype%] as its prototype,
    [AddParser("__proto__", f)] for an ordinary function object [f] (not a
    Proxy) returns and adds no entry: the entries are as before, [f] is the
    new prototype of the registry, and [Parse] runs exactly as before, so
    it never invokes [f].  ([__proto__] is not an own key: no assignment
    creates one.) *)
Theorem registration_under_proto_adds_no_entry st f :
  proto (_BabylonFileParsers st) = ObjectPrototype ->
  "__proto__" ∉ own_keys (own (_BabylonFileParsers st)) ->
  exists st',
    AddParser "__proto__" f st = Normal st' /\
    own (_BabylonFileParsers st') = own (_BabylonFileParsers st) /\
    proto (_BabylonFileParsers st') = FunctionProto f /\
    forall jsonData scene container rootUrl w,
      Parse jsonData scene container rootUrl st' w
      = Parse jsonData scene container rootUrl st w.
Proof.
  intros Hproto Hnone. apply own_lookup_None in Hnone.
  unfold AddParser, obj_set. rewrite Hnone, Hproto. simpl.
  eexists. split; [done|]. split; [done|]. split; [done|].
  intros. by apply Parse_own_ext.
Qed.

End ProtoFacts.

(** The sample registry with a replaced prototype is what that
    registration produces. *)
Example Reparented_all_returning_by_registration :
  AddParser "__proto__" Reparented.decorated Sample.all_returning
  = Normal Reparented.all_returning.
Proof. reflexivity. Qed.

Lemma registration_under_proto_adds_no_entry_witness :
  exists st',
    AddParser "__proto__" Reparented.decorated Sample.all_returning = Normal st' /\
    own (_BabylonFileParsers st') = own (_BabylonFileParsers Sample.all_returning) /\
    proto (_BabylonFileParsers st') = FunctionProto Reparented.decorated /\
    forall jsonData scene container rootUrl w,
      Parse jsonData scene container rootUrl st' w
      = Parse jsonData scene container rootUrl Sample.all_returning w.
Proof.
  apply (registration_under_proto_adds_no_entry Sample.all_returning
           Reparented.decorated).
  - reflexivity.
  - apply (bool_decide_unpack _). reflexivity.
Defined.
